(** * Terminal chat client: command interpreter, argument parser,
      history synchronizer and message-store client.

    A shallow embedding of the client-side JavaScript (terminal.js, db.js,
    Refresher.js) and the properties of the specification checked against
    it.  A JavaScript string is the list of its UTF-16 code units; the
    built-in string methods the program calls are written out on that
    representation, following ECMA-262. *)

From Stdlib Require Import Ascii String NArith ZArith Bool Lia List.
Import ListNotations.

Local Open Scope N_scope.
Local Open Scope list_scope.

(* ================================================================== *)
(** * JavaScript strings and the built-ins the program uses            *)
(* ================================================================== *)

Module JS.

(** A string value: its sequence of UTF-16 code units. *)
Definition jsstring := list N.

(** An ASCII literal as a JavaScript string. *)
Definition str (s : string) : jsstring :=
  map N_of_ascii (list_ascii_of_string s).

Definition dquote : N := 34.
Definition newline : N := 10.
Definition dollar : N := 36.
Definition percent : N := 37.
Definition underscore : N := 95.
Definition gt : N := 62.

Fixpoint eqs (a b : jsstring) : bool :=
  match a, b with
  | [], [] => true
  | x :: a', y :: b' => (x =? y) && eqs a' b'
  | _, _ => false
  end.

(** [s.startsWith(p)]. *)
Fixpoint isPrefix (p s : jsstring) : bool :=
  match p, s with
  | [], _ => true
  | _ :: _, [] => false
  | x :: p', y :: s' => (x =? y) && isPrefix p' s'
  end.

(** [s.indexOf(p)]: position of the first occurrence, if any. *)
Fixpoint indexOf (p s : jsstring) : option nat :=
  if isPrefix p s then Some 0%nat
  else match s with
       | [] => None
       | _ :: s' => option_map S (indexOf p s')
       end.

(** [s.includes(p)]. *)
Definition includes (p s : jsstring) : bool :=
  match indexOf p s with Some _ => true | None => false end.

(** [s.replace(p, r)] for a string pattern [p] and a replacement [r]
    without [$] patterns: only the first occurrence is replaced. *)
Definition replaceFirst (p r s : jsstring) : jsstring :=
  match indexOf p s with
  | None => s
  | Some i => firstn i s ++ r ++ skipn (i + length p) s
  end.

(** [s.replace(/p/g, r)] for a regular expression that is the literal
    non-empty text [p] and a replacement [r] without [$] patterns: every
    match, leftmost first and not overlapping, is replaced.  [skip] counts
    the code units of a match still to drop. *)
Fixpoint replaceAll_go (p r : jsstring) (skip : nat) (s : jsstring)
  : jsstring :=
  match s with
  | [] => []
  | c :: rest =>
      match skip with
      | S k => replaceAll_go p r k rest
      | O => if isPrefix p s
             then r ++ replaceAll_go p r (length p - 1) rest
             else c :: replaceAll_go p r 0 rest
      end
  end.

Definition replaceAll (p r s : jsstring) : jsstring :=
  replaceAll_go p r 0 s.

(** GetSubstitution of ECMA-262 for a regular expression without capture
    groups: in the replacement template [$$] is a dollar sign, [$&] the
    matched text, [$`] the text before the match and [$'] the text after
    it; any other [$] stands for itself. *)
Fixpoint GetSubstitution (matched before after templ : jsstring)
  : jsstring :=
  match templ with
  | [] => []
  | c :: t =>
      if c =? dollar then
        match t with
        | [] => [c]
        | d :: t' =>
            if d =? dollar then dollar :: GetSubstitution matched before after t'
            else if d =? 38 then matched ++ GetSubstitution matched before after t'
            else if d =? 96 then before ++ GetSubstitution matched before after t'
            else if d =? 39 then after ++ GetSubstitution matched before after t'
            else c :: GetSubstitution matched before after t
        end
      else c :: GetSubstitution matched before after t
  end.

(** [s.replace(/\n/g, templ)]: every line feed is replaced by the
    expansion of the template at that match. *)
Fixpoint replaceNewlines_go (templ before s : jsstring) : jsstring :=
  match s with
  | [] => []
  | c :: rest =>
      if c =? newline
      then GetSubstitution [c] before rest templ
             ++ replaceNewlines_go templ (before ++ [c]) rest
      else c :: replaceNewlines_go templ (before ++ [c]) rest
  end.

Definition replaceNewlines (templ s : jsstring) : jsstring :=
  replaceNewlines_go templ [] s.

(** [s.split(sep)] for a string separator.  An empty separator cuts the
    string into its code units. *)
Fixpoint split_go (sep : jsstring) (skip : nat) (cur s : jsstring)
  : list jsstring :=
  match s with
  | [] => [cur]
  | c :: rest =>
      match skip with
      | S k => split_go sep k cur rest
      | O => if isPrefix sep s
             then cur :: split_go sep (length sep - 1) [] rest
             else split_go sep 0 (cur ++ [c]) rest
      end
  end.

Definition split (sep s : jsstring) : list jsstring :=
  match sep with
  | [] => map (fun c => [c]) s
  | _ :: _ => split_go sep 0 [] s
  end.

(** WhiteSpace and LineTerminator code points, the ones [trim] strips. *)
Definition isWhiteSpace (c : N) : bool :=
  ((9 <=? c) && (c <=? 13)) || (c =? 32) || (c =? 160) || (c =? 5760)
  || ((8192 <=? c) && (c <=? 8202)) || (c =? 8232) || (c =? 8233)
  || (c =? 8239) || (c =? 8287) || (c =? 12288) || (c =? 65279).

Fixpoint trimStart (s : jsstring) : jsstring :=
  match s with
  | [] => []
  | c :: rest => if isWhiteSpace c then trimStart rest else s
  end.

Definition trimEnd (s : jsstring) : jsstring := rev (trimStart (rev s)).

(** [s.trim()]. *)
Definition trim (s : jsstring) : jsstring := trimEnd (trimStart s).

(** [s[i]] for an integer index: [None] is [undefined]. *)
Definition charAt (s : jsstring) (i : Z) : option N :=
  if (i <? 0)%Z then None else nth_error s (Z.to_nat i).

(** [s.substring(0, e)]: the end is clamped to [0 .. s.length]. *)
Definition substring0 (s : jsstring) (e : Z) : jsstring :=
  firstn (Z.to_nat e) s.

(** Truthiness of a string: the empty string is falsy. *)
Definition nonEmpty (s : jsstring) : bool :=
  match s with [] => false | _ :: _ => true end.

Definition isDigit (c : N) : bool := (48 <=? c) && (c <=? 57).
Definition isUpper (c : N) : bool := (65 <=? c) && (c <=? 90).
Definition isLower (c : N) : bool := (97 <=? c) && (c <=? 122).

(** The code units the class [[a-z0-9]] matches under the [i] flag (and
    without the [u] flag).  Canonicalize compares upper-cased code units
    but leaves a code unit of value 128 or more alone when its upper case
    is below 128, so exactly the ASCII letters and digits match. *)
Definition isAlnum (c : N) : bool := isDigit c || isUpper c || isLower c.

(** [s.replace(/[^a-z0-9]/gi, "_")]: the expression matches one code unit
    at a time, so this is a map over the code units. *)
Definition replaceNonAlnum (s : jsstring) : jsstring :=
  map (fun c => if isAlnum c then c else underscore) s.

(** [s.toLowerCase()] on the Basic Latin block: A-Z go to a-z and every
    other code unit below 128 is fixed.  The program applies it only to
    results of [replaceNonAlnum], which stay in that block; code units
    outside it are left as they are here. *)
Definition toLowerUnit (c : N) : N := if isUpper c then c + 32 else c.

Definition toLowerCase (s : jsstring) : jsstring := map toLowerUnit s.

(** [line = a ++ p ++ b] with no occurrence of [p] starting further left. *)
Definition firstOccurrence (p line a b : jsstring) : Prop :=
  line = a ++ p ++ b
  /\ forall a' b', line = a' ++ p ++ b' -> (length a <= length a')%nat.

(** ** URI encoding and decoding *)

Definition isLeadSurrogate (c : N) : bool := (55296 <=? c) && (c <=? 56319).
Definition isTrailSurrogate (c : N) : bool := (56320 <=? c) && (c <=? 57343).

(** uriReserved plus the number sign: [; / ? : @ & = + $ , #]. *)
Definition isUriReserved (c : N) : bool :=
  existsb (N.eqb c) [59; 47; 63; 58; 64; 38; 61; 43; 36; 44; 35].

(** uriUnescaped: letters, digits and [- _ . ! ~ * ' ( )]. *)
Definition isUriUnescaped (c : N) : bool :=
  isAlnum c || existsb (N.eqb c) [45; 95; 46; 33; 126; 42; 39; 40; 41].

Definition hexDigit (d : N) : N := if d <? 10 then 48 + d else 55 + d.

(** One octet as [%XX], upper-case hexadecimal. *)
Definition percentOctet (b : N) : jsstring :=
  [percent; hexDigit (b / 16); hexDigit (b mod 16)].

Definition utf8Encode (cp : N) : list N :=
  if cp <? 128 then [cp]
  else if cp <? 2048 then [192 + cp / 64; 128 + cp mod 64]
  else if cp <? 65536 then
    [224 + cp / 4096; 128 + (cp / 64) mod 64; 128 + cp mod 64]
  else [240 + cp / 262144; 128 + (cp / 4096) mod 64;
        128 + (cp / 64) mod 64; 128 + cp mod 64].

Definition percentEncode (cp : N) : jsstring :=
  flat_map percentOctet (utf8Encode cp).

(** [encodeURI(s)]; [None] stands for the URIError raised at an unpaired
    surrogate. *)
Fixpoint encodeURI (s : jsstring) : option jsstring :=
  match s with
  | [] => Some []
  | c :: rest =>
      if isUriReserved c || isUriUnescaped c
      then option_map (cons c) (encodeURI rest)
      else if isLeadSurrogate c then
        match rest with
        | d :: rest' =>
            if isTrailSurrogate d
            then option_map
                   (app (percentEncode
                           ((c - 55296) * 1024 + (d - 56320) + 65536)))
                   (encodeURI rest')
            else None
        | [] => None
        end
      else if isTrailSurrogate c then None
      else option_map (app (percentEncode c)) (encodeURI rest)
  end.

Definition hexValue (c : N) : option N :=
  if isDigit c then Some (c - 48)
  else if (65 <=? c) && (c <=? 70) then Some (c - 55)
  else if (97 <=? c) && (c <=? 102) then Some (c - 87)
  else None.

Definition hexOctet (h l : N) : option N :=
  match hexValue h, hexValue l with
  | Some a, Some b => Some (16 * a + b)
  | _, _ => None
  end.

(** A further [%XX] group of a multi-octet sequence. *)
Definition escapeOctet (p h l : N) : option N :=
  if p =? percent then hexOctet h l else None.

Definition isContinuation (b : N) : bool := (128 <=? b) && (b <=? 191).

(** The code point of a well-formed UTF-8 sequence of two to four octets:
    continuation octets in range, shortest form, no surrogate, at most
    U+10FFFF. *)
Definition utf8Decode (octets : list N) : option N :=
  let check (lo cp : N) (conts : list N) :=
    if forallb isContinuation conts && (lo <=? cp) && (cp <=? 1114111)
       && negb ((55296 <=? cp) && (cp <=? 57343))
    then Some cp else None in
  match octets with
  | [b0; b1] => check 128 ((b0 - 192) * 64 + (b1 - 128)) [b1]
  | [b0; b1; b2] =>
      check 2048 ((b0 - 224) * 4096 + (b1 - 128) * 64 + (b2 - 128)) [b1; b2]
  | [b0; b1; b2; b3] =>
      check 65536 ((b0 - 240) * 262144 + (b1 - 128) * 4096
                   + (b2 - 128) * 64 + (b3 - 128)) [b1; b2; b3]
  | _ => None
  end.

Definition utf16Encode (cp : N) : jsstring :=
  if cp <? 65536 then [cp]
  else [55296 + (cp - 65536) / 1024; 56320 + (cp - 65536) mod 1024].

Definition decodeOctets (octets : list (option N)) : option jsstring :=
  match fold_right (fun o acc => match o, acc with
                                 | Some b, Some l => Some (b :: l)
                                 | _, _ => None
                                 end) (Some []) octets with
  | Some l => option_map utf16Encode (utf8Decode l)
  | None => None
  end.

(** [decodeURI(s)]; [None] stands for the URIError raised at a malformed
    escape.  An escape of a reserved character or of [#] is kept as
    written. *)
Fixpoint decodeURI (s : jsstring) : option jsstring :=
  match s with
  | [] => Some []
  | c :: r =>
      if negb (c =? percent) then option_map (cons c) (decodeURI r)
      else
        match r with
        | h :: l :: r1 =>
            match hexOctet h l with
            | None => None
            | Some b =>
                if b <? 128 then
                  if isUriReserved b
                  then option_map (fun t => c :: h :: l :: t) (decodeURI r1)
                  else option_map (cons b) (decodeURI r1)
                else if b <? 192 then None
                else if b <? 224 then
                  match r1 with
                  | p1 :: h1 :: l1 :: r2 =>
                      match decodeOctets [Some b; escapeOctet p1 h1 l1],
                            decodeURI r2 with
                      | Some u, Some t => Some (u ++ t)
                      | _, _ => None
                      end
                  | _ => None
                  end
                else if b <? 240 then
                  match r1 with
                  | p1 :: h1 :: l1 :: p2 :: h2 :: l2 :: r2 =>
                      match decodeOctets [Some b; escapeOctet p1 h1 l1;
                                          escapeOctet p2 h2 l2],
                            decodeURI r2 with
                      | Some u, Some t => Some (u ++ t)
                      | _, _ => None
                      end
                  | _ => None
                  end
                else if b <? 248 then
                  match r1 with
                  | p1 :: h1 :: l1 :: p2 :: h2 :: l2 :: p3 :: h3 :: l3 :: r2 =>
                      match decodeOctets [Some b; escapeOctet p1 h1 l1;
                                          escapeOctet p2 h2 l2;
                                          escapeOctet p3 h3 l3],
                            decodeURI r2 with
                      | Some u, Some t => Some (u ++ t)
                      | _, _ => None
                      end
                  | _ => None
                  end
                else None
            end
        | _ => None
        end
  end.

(** The value a textarea reports after a script stores [s] in it: line
    breaks are normalised to a single line feed. *)
Fixpoint normalizeNewlines (s : jsstring) : jsstring :=
  match s with
  | [] => []
  | c :: rest =>
      if c =? 13 then
        match rest with
        | d :: rest' =>
            if d =? newline then newline :: normalizeNewlines rest'
            else newline :: normalizeNewlines rest
        | [] => [newline]
        end
      else c :: normalizeNewlines rest
  end.

(** A replacement template without [$$], [$&], [$`] or [$']: one that
    [GetSubstitution] copies as it is. *)
Definition isSubstitutionMark (d : N) : bool :=
  (d =? dollar) || (d =? 38) || (d =? 96) || (d =? 39).

Fixpoint plainTemplate (templ : jsstring) : bool :=
  match templ with
  | [] => true
  | c :: t =>
      (negb (c =? dollar)
       || match t with
          | [] => true
          | d :: _ => negb (isSubstitutionMark d)
          end)
      && plainTemplate t
  end.

(** No code unit of [x] is among [cs]. *)
Definition avoids (cs : list N) (x : jsstring) : bool :=
  forallb (fun c => negb (existsb (N.eqb c) cs)) x.

End JS.

(* ================================================================== *)
(** * Message store client (db.js)                                     *)
(* ================================================================== *)

Module DB.
Import JS.

Definition endpoint : jsstring := str "http://143.198.57.139:80/msg/".

(** One element of [urlSafe]: [x.replace(/[^a-z0-9]/gi, "_").toLowerCase()]. *)
Definition urlSafe (x : jsstring) : jsstring :=
  toLowerCase (replaceNonAlnum x).

(** [postMsg(alias, content, at)]: the URL handed to [$.get], or [None]
    when [encodeURI] raises. *)
Definition postMsg (alias content at_ : jsstring) : option jsstring :=
  match encodeURI (urlSafe alias), encodeURI (urlSafe content),
        encodeURI (urlSafe at_) with
  | Some a, Some c, Some t =>
      Some (endpoint ++ a ++ str "/" ++ c ++ str "/" ++ t)
  | _, _, _ => None
  end.

End DB.


(* ================================================================== *)
(** * Terminal (terminal.js)                                           *)
(* ================================================================== *)

Module Terminal.
Import JS.

(** The inline style of the output pane, as far as the commands read and
    write it.  The CSS engine is not modelled: a property holds the text
    last stored in it. *)
Record Style := mkStyle { background : jsstring; color : jsstring }.

(** The instance fields of a Terminal other than its command table,
    together with the parts of the page it writes and the requests it has
    sent through [DB.postMsg]. *)
Record Session := mkSession {
  user : jsstring;
  _system : jsstring;
  _path : jsstring;
  _ps1 : jsstring;
  usernameColor : jsstring;
  pathColor : jsstring;
  ps1Color : jsstring;
  cwd : bool;
  _buffer : nat;
  stdin_value : jsstring;
  stdout_innerHTML : jsstring;
  stdout_style : Style;
  documentElement_style : jsstring;
  requests : list jsstring
}.

Definition set_path (p : jsstring) (s : Session) : Session :=
  mkSession (user s) (_system s) p (_ps1 s) (usernameColor s) (pathColor s)
    (ps1Color s) (cwd s) (_buffer s) (stdin_value s) (stdout_innerHTML s)
    (stdout_style s) (documentElement_style s) (requests s).

Definition set_cwd (b : bool) (s : Session) : Session :=
  mkSession (user s) (_system s) (_path s) (_ps1 s) (usernameColor s)
    (pathColor s) (ps1Color s) b (_buffer s) (stdin_value s)
    (stdout_innerHTML s) (stdout_style s) (documentElement_style s)
    (requests s).

Definition set_buffer (n : nat) (s : Session) : Session :=
  mkSession (user s) (_system s) (_path s) (_ps1 s) (usernameColor s)
    (pathColor s) (ps1Color s) (cwd s) n (stdin_value s)
    (stdout_innerHTML s) (stdout_style s) (documentElement_style s)
    (requests s).

Definition set_stdin_value (v : jsstring) (s : Session) : Session :=
  mkSession (user s) (_system s) (_path s) (_ps1 s) (usernameColor s)
    (pathColor s) (ps1Color s) (cwd s) (_buffer s) v
    (stdout_innerHTML s) (stdout_style s) (documentElement_style s)
    (requests s).

Definition set_stdout_innerHTML (h : jsstring) (s : Session) : Session :=
  mkSession (user s) (_system s) (_path s) (_ps1 s) (usernameColor s)
    (pathColor s) (ps1Color s) (cwd s) (_buffer s) (stdin_value s) h
    (stdout_style s) (documentElement_style s) (requests s).

Definition set_stdout_style (y : Style) (s : Session) : Session :=
  mkSession (user s) (_system s) (_path s) (_ps1 s) (usernameColor s)
    (pathColor s) (ps1Color s) (cwd s) (_buffer s) (stdin_value s)
    (stdout_innerHTML s) y (documentElement_style s) (requests s).

Definition set_documentElement_style (y : jsstring) (s : Session)
  : Session :=
  mkSession (user s) (_system s) (_path s) (_ps1 s) (usernameColor s)
    (pathColor s) (ps1Color s) (cwd s) (_buffer s) (stdin_value s)
    (stdout_innerHTML s) (stdout_style s) y (requests s).

Definition add_request (url : jsstring) (s : Session) : Session :=
  mkSession (user s) (_system s) (_path s) (_ps1 s) (usernameColor s)
    (pathColor s) (ps1Color s) (cwd s) (_buffer s) (stdin_value s)
    (stdout_innerHTML s) (stdout_style s) (documentElement_style s)
    (requests s ++ [url]).

(** [textarea.textLength]. *)
Definition textLength (s : Session) : nat := length (stdin_value s).

(** [getPrompt()]: the current shell prompt as HTML. *)
Definition getPrompt (s : Session) : jsstring :=
  str "<span style=" ++ [dquote] ++ str "color: " ++ usernameColor s
    ++ [dquote] ++ str ">" ++ user s ++ str "@" ++ _system s ++ str ":"
  ++ str "</span><span style=" ++ [dquote] ++ str "color: " ++ pathColor s
    ++ [dquote] ++ str ">" ++ _path s ++ str "</span><span"
  ++ str " style=" ++ [dquote] ++ str "color: " ++ ps1Color s ++ [dquote]
    ++ str ">" ++ _ps1 s ++ str "</span>".

(** What [_parseArg] returns: [undefined], [true] or a string. *)
Inductive parsed :=
| Undefined
| PTrue
| Text (s : jsstring).

Definition truthy (r : parsed) : bool :=
  match r with
  | Undefined => false
  | PTrue => true
  | Text s => nonEmpty s
  end.

(** A value inside a template literal. *)
Definition toString (r : parsed) : jsstring :=
  match r with
  | Undefined => str "undefined"
  | PTrue => str "true"
  | Text s => s
  end.

(** [a[i]] for an array and an integer index. *)
Definition element {A : Type} (a : list A) (i : Z) : option A :=
  if (i <? 0)%Z then None else nth_error a (Z.to_nat i).

(** [input.replace(/<br \/>/g, "").split(this.getPrompt())]. *)
Definition currLine (s : Session) (input : jsstring) : list jsstring :=
  split (getPrompt s) (replaceAll (str "<br />") [] input).

(** [currLine[currLine.length - 2]]: the most recently typed line. *)
Definition currText (s : Session) (input : jsstring) : option jsstring :=
  let l := currLine s input in element l (Z.of_nat (length l) - 2).

(** [input[input.length - 2] == ">"]. *)
Definition endsAtPrompt (input : jsstring) : bool :=
  match charAt input (Z.of_nat (length input) - 2) with
  | Some c => c =? gt
  | None => false
  end.

(** [_parseArg(input, command, nargs)]. *)
Definition _parseArg (s : Session) (input command : jsstring) (nargs : bool)
  : parsed :=
  match currText s input with
  | Some txt =>
      if nonEmpty txt && endsAtPrompt input then
        if eqs command (str "decoded") then Text (trim txt)
        else if includes command txt then
          if negb nargs then PTrue
          else Text (trim (replaceFirst command [] txt))
        else Undefined
      else Undefined
  | None => Undefined
  end.

(** A command: it receives the input text and the terminal it belongs to
    and returns the text to pass on. *)
Definition command := jsstring -> Session -> jsstring * Session.

(** [input.substring(0, input.length + 1 - this.getPrompt().length)]. *)
Definition popPrompt (s : Session) (input : jsstring) : jsstring :=
  substring0 input
    (Z.of_nat (length input) + 1 - Z.of_nat (length (getPrompt s))).

(** The built-in entries of [this._Commands]. *)
Module Commands.

Definition linebreak : command := fun input s =>
  (replaceNewlines (str "<br />" ++ getPrompt s ++ str " ") input, s).

Definition echo : command := fun input s =>
  let echoArg := _parseArg s input (str "echo") true in
  if truthy echoArg then
    (popPrompt s input ++ str "<br />" ++ toString echoArg
       ++ str "<br />    " ++ getPrompt s ++ str " ", s)
  else (input, s).

Definition helpDialog : jsstring :=
  str "Example Commands:<br /><br />cd $LOCATION<br />color $COLOR<br />text $COLOR<br />darkmode<br />lightmode<br />echo $STRING".

Definition help : command := fun input s =>
  if truthy (_parseArg s input (str "help") false) then
    (popPrompt s input ++ str "<br />" ++ helpDialog ++ str "<br />"
       ++ getPrompt s, s)
  else (input, s).

Definition color : command := fun input s =>
  let colorArg := _parseArg s input (str "color") true in
  if truthy colorArg then
    (input, set_stdout_style
              (let (_, fg) := stdout_style s in mkStyle (toString colorArg) fg)
              s)
  else (input, s).

Definition text : command := fun input s =>
  let colorArg := _parseArg s input (str "text") true in
  if truthy colorArg then
    (input, set_stdout_style
              (let (bg, _) := stdout_style s in mkStyle bg (toString colorArg))
              s)
  else (input, s).

Definition resetBg (s : Session) : Session :=
  set_documentElement_style (str "filter: none")
    (set_stdout_style
       (mkStyle (str "var(--secondary-bg)") (str "var(--primary-text)")) s).

(** One branch of [theme]: back to the default when the pane is white,
    otherwise white with the given page filter. *)
Definition toggle (filter : jsstring) (s : Session) : Session :=
  if eqs (background (stdout_style s)) (str "white") then resetBg s
  else set_documentElement_style filter
         (set_stdout_style (mkStyle (str "white") (str "#121212")) s).

Definition theme : command := fun input s =>
  let s1 :=
    if truthy (_parseArg s input (str "lightmode") false)
    then toggle (str "filter: brightness(1.1) greyscale(.2);") s else s in
  let s2 :=
    if truthy (_parseArg s1 input (str "darkmode") false)
    then toggle (str "filter: invert(1);") s1 else s1 in
  (input, s2).

Definition cd : command := fun input s =>
  let chatArg := _parseArg s input (str "cd ") true in
  if truthy chatArg then
    (input, set_cwd true (set_path (_path s ++ str "/" ++ toString chatArg) s))
  else (input, s).

End Commands.

(** ** The command table *)

(** A value stored in the table: the program stores functions, but a
    caller of [addCommand] can store a string. *)
Inductive JSValue :=
| VString (s : jsstring)
| VFunction (f : command).

(** An argument handed to [addCommand].  A function argument carries its
    source text, which is what it converts to when used as a property
    name. *)
Inductive Arg :=
| AString (s : jsstring)
| AFunction (source : jsstring) (f : command).

Definition ToPropertyKey (a : Arg) : jsstring :=
  match a with
  | AString s => s
  | AFunction source _ => source
  end.

Definition valueOf (a : Arg) : JSValue :=
  match a with
  | AString s => VString s
  | AFunction _ f => VFunction f
  end.

(** An object used as a map, in the order [for-in] and [Object.keys]
    enumerate it: array-index keys in ascending order first, then the other
    keys in the order they were created. *)
Definition object (V : Type) := list (jsstring * V).

Fixpoint digitsValue (acc : N) (k : jsstring) : option N :=
  match k with
  | [] => Some acc
  | c :: r => if isDigit c then digitsValue (10 * acc + (c - 48)) r else None
  end.

(** The array index a key denotes: a canonical decimal numeral below
    2^32 - 1. *)
Definition arrayIndex (k : jsstring) : option N :=
  match k with
  | [] => None
  | c :: r =>
      if (c =? 48) && nonEmpty r then None
      else match digitsValue 0 k with
           | Some n => if n <? 4294967295 then Some n else None
           | None => None
           end
  end.

Definition hasProp {V} (k : jsstring) (o : object V) : bool :=
  existsb (fun e => eqs (fst e) k) o.

Fixpoint getProp {V} (k : jsstring) (o : object V) : option V :=
  match o with
  | [] => None
  | (k', v) :: rest => if eqs k' k then Some v else getProp k rest
  end.

Fixpoint updateProp {V} (k : jsstring) (v : V) (o : object V) : object V :=
  match o with
  | [] => []
  | (k', v') :: rest =>
      if eqs k' k then (k', v) :: rest else (k', v') :: updateProp k v rest
  end.

Fixpoint insertIndexed {V} (n : N) (k : jsstring) (v : V) (o : object V)
  : object V :=
  match o with
  | [] => [(k, v)]
  | (k', v') :: rest =>
      match arrayIndex k' with
      | Some m => if m <? n then (k', v') :: insertIndexed n k v rest
                  else (k, v) :: o
      | None => (k, v) :: o
      end
  end.

(** [o[k] = v]. *)
Definition setProp {V} (k : jsstring) (v : V) (o : object V) : object V :=
  if hasProp k o then updateProp k v o
  else match arrayIndex k with
       | Some n => insertIndexed n k v o
       | None => o ++ [(k, v)]
       end.

(** [delete o[k]]. *)
Definition deleteProp {V} (k : jsstring) (o : object V) : object V :=
  filter (fun e => negb (eqs (fst e) k)) o.

(** [Object.keys(o)]. *)
Definition keys {V} (o : object V) : list jsstring := map fst o.

Definition defaultCommands : object JSValue :=
  [ (str "linebreak", VFunction Commands.linebreak);
    (str "echo", VFunction Commands.echo);
    (str "help", VFunction Commands.help);
    (str "color", VFunction Commands.color);
    (str "text", VFunction Commands.text);
    (str "theme", VFunction Commands.theme);
    (str "cd", VFunction Commands.cd) ].

(** ** The terminal object *)

Record Terminal := mkTerminal {
  session : Session;
  _Commands : object JSValue
}.

Definition withSession (f : Session -> Session) (t : Terminal) : Terminal :=
  mkTerminal (f (session t)) (_Commands t).

(** The options the constructor reads. *)
Record Options := mkOptions {
  opt_user : jsstring;
  opt_system : jsstring;
  opt_path : jsstring;
  opt_ps1 : jsstring;
  excludedCommands : list jsstring
}.

Definition defaults : Options :=
  mkOptions (str "alias") (str "ubuntu") (str "~") (str "$") [].

(** The parts of the page the constructor finds: the textarea's content
    and the output pane. *)
Record Page := mkPage {
  textarea_value : jsstring;
  pane_innerHTML : jsstring;
  pane_style : Style;
  root_style : jsstring
}.

Definition blankPage : Page := mkPage [] [] (mkStyle [] []) [].

Definition constructor (page : Page) (options : Options) : Terminal :=
  mkTerminal
    (mkSession (opt_user options) (opt_system options) (opt_path options)
       (opt_ps1 options)
       (str "var(--secondary-text)") (str "var(--tertiary-text)")
       (str "var(--primary-text)")
       false (length (textarea_value page)) (textarea_value page)
       (pane_innerHTML page) (pane_style page) (root_style page) [])
    (fold_left (fun o excludeCommand => deleteProp excludeCommand o)
       (excludedCommands options) defaultCommands).

(** [refresh()], without the title bar. *)
Definition refresh (t : Terminal) : Terminal :=
  withSession (fun s => set_stdout_innerHTML (getPrompt s) s) t.

Definition initialize (t : Terminal) : Terminal := refresh t.

Definition _clear (t : Terminal) : Terminal :=
  refresh (withSession
             (fun s => set_stdin_value [] (set_stdout_innerHTML [] s)) t).

(** [addCommand(commandExecutor, name)]: [this._Commands[name] =
    commandExecutor]. *)
Definition addCommand (commandExecutor name : Arg) (t : Terminal)
  : Terminal :=
  mkTerminal (session t)
    (setProp (ToPropertyKey name) (valueOf commandExecutor) (_Commands t)).

(** The getter [commandNames]. *)
Definition commandNames (t : Terminal) : list jsstring :=
  keys (_Commands t).

(** ** Input processing *)

Inductive Error := TypeError | URIError.

(** How a piece of code ends: normally with a value, or by raising. *)
Inductive completion (A : Type) :=
| Normal (a : A)
| Throw (e : Error).
Arguments Normal {A} a.
Arguments Throw {A} e.

(** Code that reads and writes the session and may raise. *)
Definition M (A : Type) := Session -> completion A * Session.

Definition ret {A} (a : A) : M A := fun s => (Normal a, s).
Definition throw {A} (e : Error) : M A := fun s => (Throw e, s).
Definition bind {A B} (m : M A) (k : A -> M B) : M B := fun s =>
  match m s with
  | (Normal a, s') => k a s'
  | (Throw e, s') => (Throw e, s')
  end.
Definition get : M Session := fun s => (Normal s, s).
Definition modify (f : Session -> Session) : M unit :=
  fun s => (Normal tt, f s).

Notation "x <- m ;; k" := (bind m (fun x => k))
  (at level 61, m at next level, right associativity).
Notation "m ;;; k" := (bind m (fun _ => k))
  (at level 61, right associativity).

(** [for (const command in this._Commands) input =
    this._Commands[command](input)]: calling an entry that is not a
    function raises a TypeError. *)
Fixpoint runCommands (o : object JSValue) (input : jsstring) : M jsstring :=
  match o with
  | [] => ret input
  | (_, VFunction f) :: rest =>
      fun s => let (input', s') := f input s in runCommands rest input' s'
  | (_, VString _) :: _ => throw TypeError
  end.

(** [DB.postMsg(this.user, message, this._path)]. *)
Definition post (message : jsstring) : M unit :=
  s <- get ;;
  match DB.postMsg (user s) message (_path s) with
  | Some url => modify (add_request url)
  | None => throw URIError
  end.

(** The end of the timeout function: the text typed on the current line
    is sent to the store unless its first word names a command. *)
Definition persist (o : object JSValue) (formatted : jsstring) : M unit :=
  s <- get ;;
  match _parseArg s formatted (str "decoded") false with
  | Undefined => ret tt
  | PTrue => throw TypeError
  | Text message =>
      if nonEmpty message
         && negb (existsb (eqs (trim (hd [] (split (str " ") message))))
                    (keys o))
      then post message
      else ret tt
  end.

(** The function [_takeInput] hands to [setTimeout]. *)
Definition timeoutBody (o : object JSValue) : M unit :=
  s <- get ;;
  input <- runCommands o (stdin_value s) ;;
  s <- get ;;
  let formatted :=
    if truthy (_parseArg s input (str "clear") false) || cwd s
    then [] else input in
  modify (set_stdout_innerHTML
            (getPrompt s ++ str " " ++ formatted ++ str " ")) ;;;
  match decodeURI formatted with
  | None => throw URIError
  | Some decoded =>
      modify (set_stdin_value (normalizeNewlines decoded)) ;;;
      persist o formatted
  end.

(** The synchronous part of [_takeInput]: the terminal afterwards, and
    whether a timeout was set. *)
Definition _takeInput (t : Terminal) : Terminal * bool :=
  if Nat.eqb (textLength (session t)) (_buffer (session t)) then (t, false)
  else
    (withSession
       (fun s => set_cwd false (set_buffer (textLength s) s)) t, true).

(** One keydown event on the textarea: the listener runs, the browser
    applies the key's own effect [edit] to the text, and the timeout, when
    one was set, fires before the next event. *)
Definition keydown (edit : jsstring -> jsstring) (t : Terminal)
  : completion unit * Terminal :=
  let (t1, scheduled) := _takeInput t in
  let t2 := withSession (fun s => set_stdin_value (edit (stdin_value s)) s) t1 in
  if scheduled then
    let (c, s') := timeoutBody (_Commands t2) (session t2) in
    (c, mkTerminal s' (_Commands t2))
  else (Normal tt, t2).

(** Typing the characters of [keys_], one keydown each, with the caret at
    the end of the text. *)
Fixpoint type (keys_ : jsstring) (t : Terminal) : Terminal :=
  match keys_ with
  | [] => t
  | c :: rest => type rest (snd (keydown (fun v => v ++ [c]) t))
  end.

(** A terminal on a blank page with the default options, after
    [initialize()]. *)
Definition fresh : Terminal := initialize (constructor blankPage defaults).

(** The contract the specification gives [_parseArg] on a current line
    [line]: with the keyword a substring of the line, [true] without an
    argument wanted and otherwise the line without the first occurrence of
    the keyword, trimmed; [undefined] when the keyword is absent. *)
Definition parseContract (s : Session) (input command line : jsstring)
  : Prop :=
  ((exists a b, line = a ++ command ++ b) ->
     _parseArg s input command false = PTrue
     /\ exists a b, firstOccurrence command line a b
                    /\ _parseArg s input command true = Text (trim (a ++ b)))
  /\ (~ (exists a b, line = a ++ command ++ b) ->
        _parseArg s input command false = Undefined
        /\ _parseArg s input command true = Undefined).

(** A typed line the pipeline leaves readable: no [<], no line break, no
    carriage return and no percent sign. *)
Definition plainText (x : jsstring) : bool :=
  avoids [60; newline; 13; percent] x.

(** A session whose prompt survives the pipeline: as a replacement
    template it has no [$] pattern, it holds no line-break tag, no carriage
    return and no percent sign. *)
Definition regularPrompt (s : Session) : bool :=
  plainTemplate (str "<br />" ++ getPrompt s ++ str " ")
  && eqs (replaceAll (str "<br />") [] (getPrompt s ++ str " "))
       (getPrompt s ++ str " ")
  && avoids [13; percent] (getPrompt s).



(** What a built-in command may do to a session: extend the path, set
    the flag and restyle the page; the prompt's other parts, the textarea,
    the pane's content, the buffer length and the requests stay. *)
Definition onlyMoves (s s' : Session) : Prop :=
  user s' = user s /\ _system s' = _system s /\ _ps1 s' = _ps1 s
  /\ usernameColor s' = usernameColor s /\ pathColor s' = pathColor s
  /\ ps1Color s' = ps1Color s
  /\ _buffer s' = _buffer s /\ stdin_value s' = stdin_value s
  /\ stdout_innerHTML s' = stdout_innerHTML s
  /\ requests s' = requests s
  /\ exists segment, _path s' = _path s ++ segment.

End Terminal.


(* ================================================================== *)
(** * History synchronizer (Refresher.js)                              *)
(* ================================================================== *)

Module Refresher.
Import JS.

(** A message as the store returns it. *)
Record Message := mkMessage {
  time : jsstring;
  alias : jsstring;
  content : jsstring;
  at_ : jsstring
}.

(** The synchronizer: the [innerHTML] of each child of [contentBox], in
    order, the counter, and the two constructor arguments [msgLine] closes
    over.  [_mostRecent] is the live collection of those same children. *)
Record Refresher := mkRefresher {
  contentBox : list jsstring;
  currDepth : nat;
  PS1 : jsstring;
  location : jsstring
}.

(** [msgLine(message)]: the markup of one history line. *)
Definition msgLine (PS1 location : jsstring) (message : Message) : jsstring :=
  str "<span style=" ++ [dquote] ++ str "color: var(--secondary-text)"
    ++ [dquote] ++ str ">" ++ alias message
  ++ str "@" ++ at_ message ++ str ":</span><span style=" ++ [dquote]
    ++ str "color: var(--tertiary-text)" ++ [dquote]
  ++ [dquote] ++ str ">" ++ location ++ str "</span><span style="
    ++ [dquote] ++ str "color: var(--primary-text)" ++ [dquote] ++ str ">"
    ++ PS1
  ++ str "</span> " ++ replaceFirst (str "_") (str " ") (content message).

(** The constructor, without the interval it hands to [setInterval]. *)
Definition constructor (contentBox : list jsstring) (PS1 location : jsstring)
  : Refresher :=
  mkRefresher contentBox 0 PS1 location.

Definition appendChild (line : jsstring) (r : Refresher) : Refresher :=
  mkRefresher (contentBox r ++ [line]) (currDepth r) (PS1 r) (location r).

Definition incrDepth (r : Refresher) : Refresher :=
  mkRefresher (contentBox r) (currDepth r + 1) (PS1 r) (location r).

(** [Object.keys(logs)] of an array: its indices. *)
Definition Object_keys (logs : list Message) : list nat :=
  seq 0 (length logs).

(** How a run of the callback ends. *)
Inductive run :=
| Finished (r : Refresher)
| Raised (r : Refresher)
| Unfinished.

(** The [while] loop of the callback, run for at most [fuel] tests of its
    condition. *)
Fixpoint merge (fuel : nat) (logs : list Message) (messages : list nat)
  (r : Refresher) : run :=
  match fuel with
  | O => Unfinished
  | S fuel' =>
      if (currDepth r <? length messages)%nat then
        match nth_error messages (currDepth r) with
        | Some key =>
            match nth_error logs key with
            | Some message =>
                merge fuel' logs messages
                  (incrDepth
                     (appendChild (msgLine (PS1 r) (location r) message) r))
            | None => Raised r
            end
        | None => Raised r
        end
      else Finished r
  end.

(** The callback of [DB.getLogs().then]. *)
Definition onLogs (logs : list Message) (r : Refresher) : run :=
  merge (S (length logs)) logs (Object_keys logs) r.

(** One tick of the interval: the fetch fails ([None]), and the callback
    does not run, or it delivers a log. *)
Definition tick (fetched : option (list Message)) (r : Refresher) : run :=
  match fetched with
  | None => Finished r
  | Some logs => onLogs logs r
  end.

(** The states after each of a sequence of ticks; [None] when one of them
    does not finish. *)
Fixpoint ticks (fetches : list (option (list Message))) (r : Refresher)
  : option (list Refresher) :=
  match fetches with
  | [] => Some []
  | f :: rest =>
      match tick f r with
      | Finished r' => option_map (cons r') (ticks rest r')
      | _ => None
      end
  end.

(** The merge the specification describes, for comparison with [onLogs]:
    when the log is longer than the counter, the lines of its unrendered
    suffix are appended and the counter becomes its length; otherwise
    nothing changes. *)
Definition merged (logs : list Message) (r : Refresher) : Refresher :=
  if (currDepth r <? length logs)%nat then
    mkRefresher
      (contentBox r
         ++ map (msgLine (PS1 r) (location r)) (skipn (currDepth r) logs))
      (length logs) (PS1 r) (location r)
  else r.

(** The length of the longest log among the fetches that succeeded. *)
Fixpoint longest (fetches : list (option (list Message))) : nat :=
  match fetches with
  | [] => 0
  | Some logs :: rest => Nat.max (length logs) (longest rest)
  | None :: rest => longest rest
  end.

End Refresher.

(* ================================================================== *)
(** * Server (server.ts)                                               *)
(* ================================================================== *)

Module Server.
Import JS.

(** [constructPost(req)] on the three route parameters, with [now] for
    [new Date()]; [None] when a [decodeURI] raises. *)
Definition constructPost (now alias content at_ : jsstring)
  : option Refresher.Message :=
  match decodeURI alias, decodeURI content, decodeURI at_ with
  | Some a, Some c, Some t => Some (Refresher.mkMessage now a c t)
  | _, _, _ => None
  end.

End Server.

(* ================================================================== *)
(** * Properties                                                       *)
(* ================================================================== *)

Import JS.

(** ** String searching *)

Section Strings.

Lemma eqs_spec (a b : jsstring) : eqs a b = true <-> a = b.
Proof.
  revert b. induction a as [|x a IH]; intros [|y b]; simpl;
    try (split; [discriminate | discriminate]); [tauto|].
  rewrite andb_true_iff, N.eqb_eq, IH.
  split; [intros [-> ->]; reflexivity | intros H; inversion H; auto].
Qed.

Lemma isPrefix_spec (p s : jsstring) :
  isPrefix p s = true <-> exists b, s = p ++ b.
Proof.
  revert s. induction p as [|x p IH]; intros s; simpl.
  - split; [exists s; reflexivity | reflexivity].
  - destruct s as [|y s].
    + split; [discriminate | intros [b H]; discriminate H].
    + rewrite andb_true_iff, N.eqb_eq, IH. split.
      * intros [-> [b ->]]. now exists b.
      * intros [b H]. inversion H. split; [reflexivity | now exists b].
Qed.

Lemma indexOf_unfold (p s : jsstring) :
  indexOf p s
  = if isPrefix p s then Some 0%nat
    else match s with
         | [] => None
         | _ :: s' => option_map S (indexOf p s')
         end.
Proof. destruct s; reflexivity. Qed.

(** [indexOf] finds the leftmost occurrence. *)
Lemma indexOf_Some (p s : jsstring) (i : nat) :
  indexOf p s = Some i ->
  firstOccurrence p s (firstn i s) (skipn (i + length p) s)
  /\ length (firstn i s) = i.
Proof.
  revert i. induction s as [|c s IH]; intros i; rewrite indexOf_unfold.
  - destruct (isPrefix p []) eqn:Hp; [|discriminate].
    intros H; inversion H; subst. apply isPrefix_spec in Hp as [b Hb].
    destruct p; [|discriminate]. simpl in *. subst b.
    split; [split; [reflexivity | intros a' b' _; simpl; lia] | reflexivity].
  - destruct (isPrefix p (c :: s)) eqn:Hp.
    + intros H; inversion H; subst. apply isPrefix_spec in Hp as [b Hb].
      split; [split|reflexivity].
      * cbn [firstn Nat.add]. rewrite Hb.
        rewrite skipn_app, Nat.sub_diag, skipn_all. reflexivity.
      * intros a' b' _. simpl. lia.
    + destruct (indexOf p s) as [j|] eqn:Hj; [|discriminate].
      intros H; inversion H; subst. destruct (IH j eq_refl) as [[Heq Hmin] Hlen].
      split; [split|].
      * simpl. f_equal. exact Heq.
      * intros [|c' a'] b' H'.
        -- exfalso. assert (isPrefix p (c :: s) = true)
             by (apply isPrefix_spec; now exists b').
           congruence.
        -- simpl in H'. injection H' as _ Hs. simpl.
           apply le_n_S. exact (Hmin a' b' Hs).
      * simpl. now rewrite Hlen.
Qed.

Lemma indexOf_None (p s : jsstring) :
  indexOf p s = None -> forall a b, s <> a ++ p ++ b.
Proof.
  induction s as [|c s IH]; rewrite indexOf_unfold.
  - destruct (isPrefix p []) eqn:Hp; [discriminate|]. intros _ a b H.
    destruct a; [|discriminate].
    assert (isPrefix p [] = true) by (apply isPrefix_spec; now exists b).
    congruence.
  - destruct (isPrefix p (c :: s)) eqn:Hp; [discriminate|].
    destruct (indexOf p s) eqn:Hj; [discriminate|]. intros _ [|c' a] b H.
    + assert (isPrefix p (c :: s) = true) by (apply isPrefix_spec; now exists b).
      congruence.
    + inversion H. now apply (IH eq_refl a b).
Qed.

(** [includes] is the substring test. *)
Lemma includes_spec (p s : jsstring) :
  includes p s = true <-> exists a b, s = a ++ p ++ b.
Proof.
  unfold includes. destruct (indexOf p s) as [i|] eqn:Hi; split;
    try reflexivity; try discriminate.
  - intros _. apply indexOf_Some in Hi as [[Heq _] _]. eauto.
  - intros (a & b & H). exfalso. exact (indexOf_None p s Hi a b H).
Qed.

Lemma firstOccurrence_indexOf (p s a b : jsstring) :
  firstOccurrence p s a b -> indexOf p s = Some (length a).
Proof.
  intros [Heq Hmin]. destruct (indexOf p s) as [i|] eqn:Hi.
  - apply indexOf_Some in Hi as [[Heq' Hmin'] Hlen].
    f_equal. specialize (Hmin _ _ Heq'). specialize (Hmin' _ _ Heq). lia.
  - exfalso. exact (indexOf_None p s Hi a b Heq).
Qed.

(** [replaceFirst] rewrites the leftmost occurrence and nothing else. *)
Lemma replaceFirst_spec (p r s a b : jsstring) :
  firstOccurrence p s a b -> replaceFirst p r s = a ++ r ++ b.
Proof.
  intros H. unfold replaceFirst. rewrite (firstOccurrence_indexOf _ _ _ _ H).
  destruct H as [-> _].
  rewrite firstn_app, Nat.sub_diag, firstn_all, firstn_O, app_nil_r.
  rewrite skipn_app, skipn_all2 by lia.
  replace (length a + length p - length a)%nat with (length p) by lia.
  rewrite skipn_app, Nat.sub_diag, skipn_all. reflexivity.
Qed.

Lemma replaceFirst_absent (p r s : jsstring) :
  includes p s = false -> replaceFirst p r s = s.
Proof.
  unfold includes, replaceFirst. now destruct (indexOf p s).
Qed.

(** The built-ins on small inputs. *)

Example split_keeps_empty_pieces :
  split (str ",") (str "a,b,,c,") = [str "a"; str "b"; []; str "c"; []].
Proof. reflexivity. Qed.

Example split_of_empty_string : split (str "ab") [] = [[]].
Proof. reflexivity. Qed.

Example replaceAll_does_not_overlap :
  replaceAll (str "aa") (str "X") (str "aaaaab") = str "XXab".
Proof. reflexivity. Qed.

Example replaceFirst_is_leftmost :
  replaceFirst (str "cd") [] (str "abcd cd") = str "ab cd".
Proof. reflexivity. Qed.

Example trim_strips_both_ends : trim (str "  a b  ") = str "a b".
Proof. reflexivity. Qed.

Example replaceNewlines_expands_dollar_patterns :
  replaceNewlines (str "<$$|$&|$<|$1>") (str "a" ++ [newline] ++ str "b")
  = str "a<$|" ++ [newline] ++ str "|$<|$1>b".
Proof. reflexivity. Qed.

Example encodeURI_escapes :
  encodeURI (str "a b/c?%" ++ [8364; 55357; 56832])
  = Some (str "a%20b/c?%25%E2%82%AC%F0%9F%98%80").
Proof. reflexivity. Qed.

Example encodeURI_lone_surrogate : encodeURI [55357] = None.
Proof. reflexivity. Qed.

Example decodeURI_unescapes :
  decodeURI (str "a%41%2F%E2%82%AC%f0%9f%98%80z")
  = Some (str "aA%2F" ++ [8364; 55357; 56832] ++ str "z").
Proof. reflexivity. Qed.

Example decodeURI_malformed :
  decodeURI (str "a%4") = None /\ decodeURI (str "%C0%80") = None
  /\ decodeURI (str "%ED%A0%80") = None.
Proof. repeat split. Qed.

Example normalizeNewlines_folds :
  normalizeNewlines [97; 13; 10; 13; 98] = [97; 10; 10; 98].
Proof. reflexivity. Qed.

End Strings.

(** ** History synchronizer *)

Section Synchronizer.
Import Refresher.

Lemma Object_keys_length (logs : list Message) :
  length (Object_keys logs) = length logs.
Proof. unfold Object_keys. apply length_seq. Qed.

Lemma Object_keys_lookup (logs : list Message) (i : nat) :
  (i < length logs)%nat -> nth_error (Object_keys logs) i = Some i.
Proof.
  intros Hi. unfold Object_keys.
  rewrite nth_error_nth' with (d := 0%nat) by (rewrite length_seq; exact Hi).
  now rewrite seq_nth.
Qed.

Lemma skipn_lookup {A} (l : list A) (i : nat) (x : A) :
  nth_error l i = Some x -> skipn i l = x :: skipn (S i) l.
Proof.
  revert i. induction l as [|y l IH]; intros [|i] H; simpl in *;
    try discriminate.
  - now inversion H.
  - now apply IH.
Qed.

(** The loop stops within [length logs - currDepth + 1] tests of its
    condition, and has then appended the lines of the unrendered suffix. *)
Lemma merge_finishes (logs : list Message) :
  forall (n fuel : nat) (r : Refresher),
    (length logs - currDepth r <= n)%nat -> (n < fuel)%nat ->
    merge fuel logs (Object_keys logs) r = Finished (merged logs r).
Proof.
  induction n as [|n IH]; intros fuel r Hn Hfuel;
    (destruct fuel as [|fuel]; [lia|]); unfold merged; simpl;
    rewrite Object_keys_length;
    destruct (Nat.ltb_spec (currDepth r) (length logs)) as [Hlt|Hge];
    try reflexivity; try lia.
  rewrite Object_keys_lookup by exact Hlt.
  destruct (nth_error logs (currDepth r)) as [m|] eqn:Hm.
  2:{ apply nth_error_None in Hm. lia. }
  rewrite IH by (simpl; lia).
  unfold merged, incrDepth, appendChild.
  cbn [currDepth contentBox PS1 location].
  rewrite (skipn_lookup _ _ _ Hm), map_cons, <- app_assoc.
  replace (currDepth r + 1)%nat with (S (currDepth r)) by lia.
  destruct (Nat.ltb_spec (S (currDepth r)) (length logs)) as [Hlt'|Hge'].
  - reflexivity.
  - assert (Hlen : length logs = S (currDepth r)) by lia.
    rewrite (skipn_all2 logs) by lia. now rewrite Hlen.
Qed.

Lemma onLogs_merged (logs : list Message) (r : Refresher) :
  onLogs logs r = Finished (merged logs r).
Proof.
  unfold onLogs. apply merge_finishes with (n := length logs); lia.
Qed.

Lemma merged_depth (logs : list Message) (r : Refresher) :
  currDepth (merged logs r) = Nat.max (currDepth r) (length logs).
Proof.
  unfold merged.
  destruct (Nat.ltb_spec (currDepth r) (length logs)); simpl; lia.
Qed.

Lemma merged_idempotent (logs : list Message) (r : Refresher) :
  merged logs (merged logs r) = merged logs r.
Proof.
  unfold merged at 1. rewrite merged_depth.
  destruct (Nat.ltb_spec (Nat.max (currDepth r) (length logs)) (length logs));
    [lia | reflexivity].
Qed.

Lemma tick_finishes (f : option (list Message)) (r : Refresher) :
  exists r', tick f r = Finished r'
             /\ (currDepth r <= currDepth r')%nat
             /\ (f = None -> r' = r).
Proof.
  destruct f as [logs|]; simpl.
  - exists (merged logs r). rewrite onLogs_merged, merged_depth.
    repeat split; [lia | discriminate].
  - exists r. repeat split; lia.
Qed.

Lemma ticks_trace (fetches : list (option (list Message))) :
  forall r : Refresher,
  exists trace,
    ticks fetches r = Some trace
    /\ length trace = length fetches
    /\ forall i f before after,
         nth_error fetches i = Some f ->
         nth_error (r :: trace) i = Some before ->
         nth_error trace i = Some after ->
         (currDepth before <= currDepth after)%nat
         /\ (f = None -> after = before).
Proof.
  induction fetches as [|f0 fetches IH]; intros r.
  - exists []. split; [reflexivity | split; [reflexivity |]].
    intros [|i] f before after H; discriminate H.
  - destruct (tick_finishes f0 r) as (r1 & Htick & Hle & Hfail).
    destruct (IH r1) as (trace & Hrun & Hlen & Hstep).
    exists (r1 :: trace). simpl. rewrite Htick, Hrun. simpl.
    split; [reflexivity | split; [now rewrite Hlen |]].
    intros [|i] f before after Hf Hb Ha; simpl in *.
    + inversion Hf; inversion Hb; inversion Ha; subst. now split.
    + now apply (Hstep i f).
Qed.

(** C1: one merge tick on a fetched log [L], with the counter at [d],
    appends the lines of [L[d]], ..., [L[len(L)-1]] in that order and sets
    the counter to [len(L)] when [len(L) > d], and changes nothing when
    [len(L) <= d]; a second tick with the same log appends nothing. *)
Theorem merge_tick_appends_unrendered_suffix
  (r : Refresher) (L : list Message) :
  let d := currDepth r in
  let r' :=
    if (d <? length L)%nat then
      mkRefresher
        (contentBox r ++ map (msgLine (PS1 r) (location r)) (skipn d L))
        (length L) (PS1 r) (location r)
    else r in
  tick (Some L) r = Finished r' /\ tick (Some L) r' = Finished r'.
Proof.
  cbv zeta. fold (merged L r). simpl.
  rewrite !onLogs_merged, merged_idempotent. now split.
Qed.

(** C2: the counter starts at 0, and along every sequence of ticks,
    whether the fetch of each succeeds or fails, every tick finishes, the
    counter never decreases, and a tick whose fetch fails leaves the
    counter and the transcript as they were. *)
Theorem currDepth_never_decreases
  (box : list jsstring) (ps1 loc : jsstring)
  (fetches : list (option (list Message))) :
  currDepth (constructor box ps1 loc) = 0%nat
  /\ exists trace,
       ticks fetches (constructor box ps1 loc) = Some trace
       /\ length trace = length fetches
       /\ forall i f before after,
            nth_error fetches i = Some f ->
            nth_error (constructor box ps1 loc :: trace) i = Some before ->
            nth_error trace i = Some after ->
            (currDepth before <= currDepth after)%nat
            /\ (f = None -> after = before).
Proof.
  split; [reflexivity | apply ticks_trace].
Qed.

(** Only the leftmost underscore of a content becomes a space: whatever
    follows it is copied, underscores included. *)
Lemma replaceFirst_underscore (a b : jsstring) :
  ~ In underscore a ->
  replaceFirst (str "_") (str " ") (a ++ str "_" ++ b) = a ++ str " " ++ b.
Proof.
  intros Ha. apply replaceFirst_spec. split; [reflexivity|].
  intros a' b' Heq.
  destruct (Nat.le_gt_cases (length a) (length a')) as [Hle|Hgt];
    [exact Hle | exfalso].
  assert (Hn : nth_error (a ++ str "_" ++ b) (length a') = Some underscore).
  { rewrite Heq, nth_error_app2, Nat.sub_diag by lia. reflexivity. }
  rewrite nth_error_app1 in Hn by exact Hgt.
  apply Ha. eapply nth_error_In. exact Hn.
Qed.

(** C5: [msgLine] turns only the first underscore of the stored content
    into a space.  For the content [how_are_you] posted by [bob] at [team]
    the line ends in [how are_you]. *)
Theorem msgLine_replaces_first_underscore_only :
  msgLine (str "$") []
    (mkMessage [] (str "bob") (str "how_are_you") (str "team"))
  = str "<span style=" ++ [dquote] ++ str "color: var(--secondary-text)"
      ++ [dquote] ++ str ">bob@team:</span><span style=" ++ [dquote]
      ++ str "color: var(--tertiary-text)" ++ [dquote; dquote]
      ++ str "></span><span style=" ++ [dquote]
      ++ str "color: var(--primary-text)" ++ [dquote]
      ++ str ">$</span> how are_you".
Proof. vm_compute. reflexivity. Qed.

End Synchronizer.

(** ** Message store client *)

Section StoreClient.

(** The three ranges do not overlap. *)
Lemma class_disjoint (c : N) :
  (isDigit c && isUpper c = false)
  /\ (isDigit c && isLower c = false)
  /\ (isUpper c && isLower c = false).
Proof.
  unfold isDigit, isUpper, isLower.
  repeat split;
    repeat match goal with
           | |- context [N.leb ?a ?b] => destruct (N.leb_spec a b)
           end; simpl; try reflexivity; lia.
Qed.

(** The code unit [urlSafe] puts in the place of [c]. *)
Lemma urlSafe_unit (c : N) :
  toLowerUnit (if isAlnum c then c else underscore)
  = if isDigit c || isLower c then c
    else if isUpper c then c + 32 else underscore.
Proof.
  destruct (class_disjoint c) as (DU & DL & UL).
  unfold toLowerUnit, isAlnum.
  destruct (isDigit c) eqn:D, (isUpper c) eqn:U, (isLower c) eqn:L;
    simpl in *; rewrite ?U; try reflexivity; discriminate.
Qed.

Lemma urlSafe_map (x : jsstring) :
  DB.urlSafe x
  = map (fun c => if isDigit c || isLower c then c
                  else if isUpper c then c + 32 else underscore) x.
Proof.
  unfold DB.urlSafe, toLowerCase, replaceNonAlnum. rewrite map_map.
  apply map_ext. intros c. apply urlSafe_unit.
Qed.

Lemma upper_to_lower (c : N) : isUpper c = true -> isLower (c + 32) = true.
Proof.
  unfold isUpper, isLower. rewrite !andb_true_iff, !N.leb_le. lia.
Qed.

Lemma urlSafe_unit_unescaped (c : N) :
  isUriReserved (toLowerUnit (if isAlnum c then c else underscore))
  || isUriUnescaped (toLowerUnit (if isAlnum c then c else underscore))
  = true.
Proof.
  rewrite urlSafe_unit. unfold isUriUnescaped, isAlnum.
  destruct (isDigit c) eqn:D; simpl; [rewrite D; apply orb_true_r|].
  destruct (isLower c) eqn:L; simpl;
    [rewrite D, L; simpl; rewrite !orb_true_r; reflexivity|].
  destruct (isUpper c) eqn:U.
  - rewrite (upper_to_lower c U). rewrite !orb_true_r. reflexivity.
  - reflexivity.
Qed.

(** Percent-encoding leaves the result of [urlSafe] as it is. *)
Lemma encodeURI_urlSafe (x : jsstring) :
  encodeURI (DB.urlSafe x) = Some (DB.urlSafe x).
Proof.
  unfold DB.urlSafe, toLowerCase, replaceNonAlnum. rewrite map_map.
  induction x as [|c x IH]; [reflexivity|].
  cbn [map encodeURI]. rewrite urlSafe_unit_unescaped, IH. reflexivity.
Qed.

Lemma urlSafe_length (x : jsstring) : length (DB.urlSafe x) = length x.
Proof. unfold DB.urlSafe, toLowerCase, replaceNonAlnum. now rewrite !length_map. Qed.

(** C6, as stated, fails: were every code unit in [[A-Za-z0-9]] left
    unchanged, posting as [Bob] would request a URL with [Bob] in it. *)
Lemma postMsg_keeps_letters_refuted :
  ~ (forall alias content at_ : jsstring,
       exists a c t,
         encodeURI (replaceNonAlnum alias) = Some a
         /\ encodeURI (replaceNonAlnum content) = Some c
         /\ encodeURI (replaceNonAlnum at_) = Some t
         /\ DB.postMsg alias content at_
            = Some (DB.endpoint ++ a ++ str "/" ++ c ++ str "/" ++ t)).
Proof.
  intros H.
  destruct (H (str "Bob") (str "hi") (str "x")) as (a & c & t & Ha & Hc & Ht & Hp).
  vm_compute in Ha, Hc, Ht.
  inversion Ha; inversion Hc; inversion Ht; subst.
  vm_compute in Hp. discriminate Hp.
Qed.

(** C6, amended: [postMsg] replaces every code unit outside [[A-Za-z0-9]]
    by an underscore, leaves digits and lower-case letters unchanged and
    turns the upper-case letters A-Z into lower case; percent-encoding is
    applied on top and changes nothing more, so the request always goes
    out, to the URL made of the three results. *)
Theorem postMsg_url (alias content at_ : jsstring) :
  let safe := map (fun c => if isDigit c || isLower c then c
                            else if isUpper c then c + 32 else underscore) in
  encodeURI (safe alias) = Some (safe alias)
  /\ encodeURI (safe content) = Some (safe content)
  /\ encodeURI (safe at_) = Some (safe at_)
  /\ DB.postMsg alias content at_
     = Some (DB.endpoint ++ safe alias ++ str "/" ++ safe content
               ++ str "/" ++ safe at_).
Proof.
  cbv zeta. rewrite <- !urlSafe_map.
  unfold DB.postMsg. rewrite !encodeURI_urlSafe. repeat split.
Qed.

End StoreClient.

(** ** Argument parser *)

Section Parser.
Import Terminal.

Lemma endsAtPrompt_spec (input : jsstring) :
  endsAtPrompt input = true
  <-> charAt input (Z.of_nat (length input) - 2) = Some gt.
Proof.
  unfold endsAtPrompt.
  destruct (charAt input (Z.of_nat (length input) - 2)) as [c|].
  - rewrite N.eqb_eq. split; [now intros -> | now intros [= ->]].
  - split; discriminate.
Qed.

Lemma nonEmpty_spec (x : jsstring) : nonEmpty x = true <-> x <> [].
Proof. destruct x; simpl; split; congruence. Qed.

(** The parser on a line that passes its guard. *)
Lemma parseArg_on_line (s : Session) (input command line : jsstring)
  (nargs : bool) :
  currText s input = Some line -> line <> [] ->
  charAt input (Z.of_nat (length input) - 2) = Some gt ->
  _parseArg s input command nargs
  = if eqs command (str "decoded") then Text (trim line)
    else if includes command line then
      if negb nargs then PTrue
      else Text (trim (replaceFirst command [] line))
    else Undefined.
Proof.
  intros Hline Hne Hend. unfold _parseArg. rewrite Hline.
  apply nonEmpty_spec in Hne. apply endsAtPrompt_spec in Hend.
  now rewrite Hne, Hend.
Qed.

(** The parser on an input that fails the line-boundary test. *)
Lemma parseArg_off_boundary (s : Session) (input command : jsstring)
  (nargs : bool) :
  endsAtPrompt input = false -> _parseArg s input command nargs = Undefined.
Proof.
  intros Hend. unfold _parseArg.
  destruct (currText s input) as [line|]; [|reflexivity].
  now rewrite Hend, andb_false_r.
Qed.

(** C3, as stated, fails: for the keyword [decoded] the parser returns the
    trimmed line whether or not the keyword occurs in it. *)
Lemma parse_contract_refuted_by_decoded :
  ~ (forall (s : Session) (input command line : jsstring),
       currText s input = Some line -> line <> [] ->
       charAt input (Z.of_nat (length input) - 2) = Some gt ->
       parseContract s input command line).
Proof.
  intros H.
  destruct (H (session fresh)
              (str "hi" ++ getPrompt (session fresh) ++ str " ")
              (str "decoded") (str "hi")) as [_ Habsent];
    try (vm_compute; congruence).
  destruct Habsent as [Hfalse _].
  - intros Hsub. apply includes_spec in Hsub. vm_compute in Hsub.
    discriminate Hsub.
  - vm_compute in Hfalse. discriminate Hfalse.
Qed.

(** C3, amended: on an input whose current line exists and which ends at a
    line boundary, and for every keyword other than the special name
    [decoded], [_parseArg] without an argument wanted returns [true] if
    and only if the keyword is a substring of the current line and
    [undefined] otherwise; with an argument wanted it returns the current
    line with the first occurrence of the keyword removed, trimmed, when
    the keyword is present, and [undefined] otherwise. *)
Theorem parse_contract_for_commands
  (s : Session) (input command line : jsstring) :
  currText s input = Some line -> line <> [] ->
  charAt input (Z.of_nat (length input) - 2) = Some gt ->
  command <> str "decoded" ->
  parseContract s input command line.
Proof.
  intros Hline Hne Hend Hcmd.
  assert (Hd : eqs command (str "decoded") = false).
  { destruct (eqs command (str "decoded")) eqn:E; [|reflexivity].
    apply eqs_spec in E. contradiction. }
  split.
  - intros Hsub. apply includes_spec in Hsub.
    rewrite !(parseArg_on_line s input command line _ Hline Hne Hend).
    rewrite Hd, Hsub. split; [reflexivity|].
    unfold includes in Hsub.
    destruct (indexOf command line) as [i|] eqn:Hi; [|discriminate].
    destruct (indexOf_Some _ _ _ Hi) as [Hfirst _].
    eexists _, _. split; [exact Hfirst|].
    simpl. rewrite (replaceFirst_spec _ [] _ _ _ Hfirst). reflexivity.
  - intros Habsent.
    assert (Hinc : includes command line = false).
    { destruct (includes command line) eqn:E; [|reflexivity].
      apply includes_spec in E. contradiction. }
    rewrite !(parseArg_on_line s input command line _ Hline Hne Hend).
    rewrite Hd, Hinc. now split.
Qed.

Lemma parse_contract_for_commands_witness :
  parseContract (session fresh)
    (str "echo hi there" ++ getPrompt (session fresh) ++ str " ")
    (str "echo") (str "echo hi there").
Proof.
  apply parse_contract_for_commands.
  - vm_compute. reflexivity.
  - discriminate.
  - vm_compute. reflexivity.
  - intros H. vm_compute in H. discriminate H.
Defined.

(** C10: on an input whose second-to-last code unit is not [>], which
    includes every input shorter than two code units, [_parseArg] returns
    [undefined] for every command name, [decoded] among them, and for both
    values of [nargs]; handed such a text, the persistence step sends
    nothing to the store. *)
Theorem parse_undefined_off_boundary
  (s : Session) (input command : jsstring) (nargs : bool) :
  charAt input (Z.of_nat (length input) - 2) <> Some gt ->
  _parseArg s input command nargs = Undefined
  /\ forall o : object JSValue, persist o input s = (Normal tt, s).
Proof.
  intros Hend.
  assert (Hoff : endsAtPrompt input = false).
  { destruct (endsAtPrompt input) eqn:E; [|reflexivity].
    apply endsAtPrompt_spec in E. contradiction. }
  split; [now apply parseArg_off_boundary|].
  intros o. unfold persist, bind, get.
  now rewrite parseArg_off_boundary.
Qed.

Lemma parse_undefined_off_boundary_witness :
  charAt (str "echo hi") (Z.of_nat (length (str "echo hi")) - 2) <> Some gt
  /\ _parseArg (session fresh) (str "echo hi") (str "decoded") false
     = Undefined
  /\ forall o : object JSValue,
       persist o (str "echo hi") (session fresh)
       = (Normal tt, session fresh).
Proof.
  split.
  - vm_compute. intros H. discriminate H.
  - apply (parse_undefined_off_boundary (session fresh) (str "echo hi")
             (str "decoded") false).
    vm_compute. intros H. discriminate H.
Defined.

End Parser.

(** ** Command interpreter *)

Section Interpreter.
Import Terminal.

Lemma eqs_refl (k : jsstring) : eqs k k = true.
Proof. now apply eqs_spec. Qed.

Lemma hasProp_getProp {V} (k : jsstring) (o : object V) :
  hasProp k o = false <-> getProp k o = None.
Proof.
  induction o as [|[k' v'] o IH]; simpl; [tauto|].
  destruct (eqs k' k); simpl; [split; discriminate | exact IH].
Qed.

Lemma getProp_app {V} (k : jsstring) (o o' : object V) :
  getProp k (o ++ o')
  = match getProp k o with Some v => Some v | None => getProp k o' end.
Proof.
  induction o as [|[k' v'] o IH]; simpl; [reflexivity|].
  now destruct (eqs k' k).
Qed.

Lemma getProp_updateProp {V} (k : jsstring) (v : V) (o : object V) :
  hasProp k o = true -> getProp k (updateProp k v o) = Some v.
Proof.
  induction o as [|[k' v'] o IH]; simpl; [discriminate|].
  destruct (eqs k' k) eqn:E; simpl; rewrite E; [reflexivity | exact IH].
Qed.

Lemma getProp_insertIndexed {V} (n : N) (k : jsstring) (v : V)
  (o : object V) :
  getProp k o = None -> getProp k (insertIndexed n k v o) = Some v.
Proof.
  induction o as [|[k' v'] o IH]; simpl; intros Hk.
  - now rewrite eqs_refl.
  - destruct (eqs k' k) eqn:E; [discriminate|].
    destruct (arrayIndex k') as [m|]; [destruct (m <? n)|]; simpl;
      rewrite ?E, ?eqs_refl; auto.
Qed.

(** After [o[k] = v], reading [o[k]] gives [v]. *)
Lemma getProp_setProp {V} (k : jsstring) (v : V) (o : object V) :
  getProp k (setProp k v o) = Some v.
Proof.
  unfold setProp. destruct (hasProp k o) eqn:H.
  - now apply getProp_updateProp.
  - apply hasProp_getProp in H. destruct (arrayIndex k).
    + now apply getProp_insertIndexed.
    + rewrite getProp_app, H. simpl. now rewrite eqs_refl.
Qed.

(** An entry that can be read is enumerated, at the place of its key. *)
Lemma getProp_split {V} (k : jsstring) (v : V) (o : object V) :
  getProp k o = Some v ->
  exists before after,
    o = before ++ (k, v) :: after /\ getProp k before = None.
Proof.
  induction o as [|[k' v'] o IH]; simpl; [discriminate|].
  destruct (eqs k' k) eqn:E.
  - intros [= ->]. apply eqs_spec in E. subst k'. now exists [], o.
  - intros H. destruct (IH H) as (before & after & -> & Hb).
    exists ((k', v') :: before), after. simpl. now rewrite E.
Qed.

(** The command loop runs the entries in order. *)
Lemma runCommands_app (o o' : object JSValue) (input : jsstring)
  (s : Session) :
  runCommands (o ++ o') input s
  = match runCommands o input s with
    | (Normal input', s') => runCommands o' input' s'
    | (Throw e, s') => (Throw e, s')
    end.
Proof.
  revert input s. induction o as [|[k [x|f]] o IH]; intros input s; simpl.
  - reflexivity.
  - reflexivity.
  - destruct (f input s) as [input' s']. apply IH.
Qed.

(** With its arguments in the order of its parameter list, executor first
    and name second, [addCommand] files the executor under the name: the
    name is listed, and the command loop calls the executor on the text
    the entries before it produce. *)
Lemma addCommand_executor_first
  (source name : jsstring) (f : command) (t : Terminal) :
  let t' := addCommand (AFunction source f) (AString name) t in
  In name (commandNames t')
  /\ getProp name (_Commands t') = Some (VFunction f)
  /\ exists before after,
       _Commands t' = before ++ (name, VFunction f) :: after
       /\ forall input s,
            runCommands (_Commands t') input s
            = match runCommands before input s with
              | (Normal input1, s1) =>
                  let (input2, s2) := f input1 s1 in
                  runCommands after input2 s2
              | (Throw e, s1) => (Throw e, s1)
              end.
Proof.
  cbv zeta. unfold addCommand, commandNames; simpl.
  pose proof (getProp_setProp name (VFunction f) (_Commands t)) as Hget.
  destruct (getProp_split _ _ _ Hget) as (before & after & Heq & _).
  split; [|split; [exact Hget|]].
  - rewrite Heq. unfold keys. rewrite map_app. apply in_or_app. right.
    now left.
  - exists before, after. split; [exact Heq|]. intros input s.
    rewrite Heq, runCommands_app. reflexivity.
Qed.

(** C7: called as its documentation lists the parameters, name first and
    executor second, [addCommand] files the name under the executor's
    source text.  With
    the name [shout] and the executor [(input) => input] the list of
    command names gains the source text and not [shout], the table holds
    the string [shout] under that key, and the next processed keystroke
    raises a TypeError when the command loop calls the string. *)
Theorem addCommand_name_first_misfiles :
  let executor := AFunction (str "(input) => input") (fun input s => (input, s)) in
  let t := addCommand (AString (str "shout")) executor fresh in
  commandNames t = commandNames fresh ++ [str "(input) => input"]
  /\ existsb (eqs (str "shout")) (commandNames t) = false
  /\ getProp (str "shout") (_Commands t) = None
  /\ getProp (str "(input) => input") (_Commands t)
     = Some (VString (str "shout"))
  /\ fst (timeoutBody (_Commands t) (session t)) = Throw TypeError
  /\ fst (keydown (fun v => v ++ str "b") (type (str "a") t))
     = Throw TypeError.
Proof. vm_compute. repeat split. Qed.

(** C9: a trigger that finds the text of the textarea as long as recorded
    at the last processed trigger returns at once.  The listener leaves the
    terminal as it is and sets no timeout, so the command table is not
    applied and nothing is written or sent; over the whole keydown event
    only the key's own effect on the text of the textarea is seen. *)
Theorem takeInput_ignores_unchanged_length
  (t : Terminal) (edit : jsstring -> jsstring) :
  textLength (session t) = _buffer (session t) ->
  _takeInput t = (t, false)
  /\ keydown edit t
     = (Normal tt,
        withSession (fun s => set_stdin_value (edit (stdin_value s)) s) t)
  /\ let s := session t in
     let s' := session (snd (keydown edit t)) in
     _Commands (snd (keydown edit t)) = _Commands t
     /\ _path s' = _path s /\ user s' = user s /\ cwd s' = cwd s
     /\ stdout_style s' = stdout_style s
     /\ documentElement_style s' = documentElement_style s
     /\ _buffer s' = _buffer s
     /\ stdout_innerHTML s' = stdout_innerHTML s
     /\ requests s' = requests s.
Proof.
  intros Hlen.
  assert (Hguard : _takeInput t = (t, false)).
  { unfold _takeInput. now rewrite Hlen, Nat.eqb_refl. }
  assert (Hkey : keydown edit t
                 = (Normal tt,
                    withSession
                      (fun s => set_stdin_value (edit (stdin_value s)) s) t)).
  { unfold keydown. now rewrite Hguard. }
  split; [exact Hguard | split; [exact Hkey|]].
  cbv zeta. rewrite Hkey. simpl. repeat split.
Qed.

Lemma takeInput_ignores_unchanged_length_witness :
  textLength (session fresh) = _buffer (session fresh)
  /\ _takeInput fresh = (fresh, false)
  /\ requests (session (snd (keydown (fun v => v ++ str "a") fresh)))
     = requests (session fresh).
Proof.
  split; [reflexivity|].
  destruct (takeInput_ignores_unchanged_length fresh
              (fun v => v ++ str "a") eq_refl)
    as (Hguard & _ & _ & _ & _ & _ & _ & _ & _ & _ & Hreq).
  split; [exact Hguard | exact Hreq].
Defined.

(** A trigger that finds a different length is processed. *)
Lemma takeInput_processes_changed_length (t : Terminal) :
  textLength (session t) <> _buffer (session t) ->
  _takeInput t
  = (withSession (fun s => set_cwd false (set_buffer (textLength s) s)) t,
     true).
Proof.
  intros Hlen. unfold _takeInput.
  destruct (Nat.eqb_spec (textLength (session t)) (_buffer (session t)));
    [contradiction | reflexivity].
Qed.

(** C4: typing [echo hello world] and Enter into a fresh terminal with the
    default command table.  The Enter keystroke is processed and ends
    normally; the output pane then shows a freshly rendered prompt and the
    typed line, below it [hello world] on a line of its own, and below
    that a fresh prompt; no request has gone to the message store. *)
Theorem echo_renders_argument_and_is_not_posted :
  let typed := type (str "echo hello world") fresh in
  let done := keydown (fun v => v ++ [newline]) typed in
  let prompt := getPrompt (session fresh) in
  fst done = Normal tt
  /\ existsb (eqs (str "echo")) (commandNames fresh) = true
  /\ stdout_innerHTML (session (snd done))
     = prompt ++ str " echo hello world<br /><s"
         ++ str "<br />hello world<br />    " ++ prompt ++ str "  "
  /\ getPrompt (session (snd done)) = prompt
  /\ requests (session typed) = []
  /\ requests (session (snd done)) = [].
Proof. vm_compute. repeat split. Qed.

(** A line that names no command is sent to the store. *)
Lemma plain_line_is_posted :
  requests (session (type (str "hi there" ++ [newline]) fresh))
  = [str "http://143.198.57.139:80/msg/alias/hi_there/_"].
Proof. vm_compute. reflexivity. Qed.

(** C8: typing [cd foo] and Enter, then [cd bar] and Enter, into a fresh
    terminal.  Each of the two lines sets the directory-changed flag and
    leaves the output pane with the new prompt and an empty line, the
    textarea empty and nothing sent; the path ends in [/foo/bar]. *)
Theorem cd_twice_extends_path_and_clears_line :
  let t1 := type (str "cd foo" ++ [newline]) fresh in
  let t2 := type (str "cd bar" ++ [newline]) t1 in
  (cwd (session t1) = true
   /\ _path (session t1) = _path (session fresh) ++ str "/foo"
   /\ stdout_innerHTML (session t1) = getPrompt (session t1) ++ str "  "
   /\ stdin_value (session t1) = [])
  /\ (cwd (session t2) = true
      /\ _path (session t2) = _path (session fresh) ++ str "/foo/bar"
      /\ stdout_innerHTML (session t2) = getPrompt (session t2) ++ str "  "
      /\ stdin_value (session t2) = [])
  /\ requests (session t2) = [].
Proof. vm_compute. repeat split. Qed.

End Interpreter.

(** ** History synchronizer: what a run of ticks keeps *)

Section SynchronizerRuns.
Import Refresher.

(** A tick as a function of the state. *)
Lemma tick_result (f : option (list Message)) (r : Refresher) :
  tick f r
  = Finished match f with Some logs => merged logs r | None => r end.
Proof. destruct f as [logs|]; [apply onLogs_merged | reflexivity]. Qed.

Lemma ticks_step (f : option (list Message))
  (fetches : list (option (list Message))) (r : Refresher) :
  ticks (f :: fetches) r
  = option_map
      (cons match f with Some logs => merged logs r | None => r end)
      (ticks fetches match f with Some logs => merged logs r | None => r end).
Proof. simpl. now rewrite tick_result. Qed.

Lemma merged_appends (logs : list Message) (r : Refresher) :
  exists added,
    contentBox (merged logs r) = contentBox r ++ added
    /\ currDepth (merged logs r) = (currDepth r + length added)%nat
    /\ PS1 (merged logs r) = PS1 r
    /\ location (merged logs r) = location r.
Proof.
  unfold merged.
  destruct (Nat.ltb_spec (currDepth r) (length logs)) as [Hlt|Hge].
  - eexists. simpl. split; [reflexivity|].
    rewrite length_map, length_skipn. repeat split. lia.
  - exists []. rewrite app_nil_r. simpl. repeat split. lia.
Qed.

Lemma ticks_depth (fetches : list (option (list Message))) :
  forall r : Refresher,
  exists trace,
    ticks fetches r = Some trace
    /\ currDepth (last trace r) = Nat.max (currDepth r) (longest fetches).
Proof.
  induction fetches as [|f fetches IH]; intros r.
  - exists []. simpl. split; [reflexivity | lia].
  - rewrite ticks_step.
    destruct (IH match f with Some logs => merged logs r | None => r end)
      as (trace & -> & Hlast).
    eexists. split; [reflexivity|].
    change (last (?x :: trace) r) with (last (x :: trace) r).
    assert (Hl : forall (x : Refresher), last (x :: trace) r = last trace x).
    { intros x. clear. revert x. induction trace as [|y trace IHt];
        intros x; [reflexivity|]. simpl in *. destruct trace; auto. }
    rewrite Hl, Hlast. destruct f as [logs|]; simpl.
    + rewrite merged_depth. lia.
    + reflexivity.
Qed.

(** X1: the history transcript is append-only and the counter counts the
    appended lines: after any run of ticks, from any state, every state on
    the way holds the transcript it started from followed by exactly as
    many new lines as the counter has advanced. *)
Theorem transcript_grows_with_counter
  (fetches : list (option (list Message))) (r : Refresher) :
  exists trace,
    ticks fetches r = Some trace
    /\ Forall (fun r' =>
                 exists added,
                   contentBox r' = contentBox r ++ added
                   /\ currDepth r' = (currDepth r + length added)%nat
                   /\ PS1 r' = PS1 r /\ location r' = location r) trace.
Proof.
  revert r. induction fetches as [|f fetches IH]; intros r.
  - exists []. split; [reflexivity | constructor].
  - rewrite ticks_step.
    set (r1 := match f with Some logs => merged logs r | None => r end).
    assert (H1 : exists added,
               contentBox r1 = contentBox r ++ added
               /\ currDepth r1 = (currDepth r + length added)%nat
               /\ PS1 r1 = PS1 r /\ location r1 = location r).
    { subst r1. destruct f as [logs|]; [apply merged_appends|].
      exists []. rewrite app_nil_r. simpl. repeat split. lia. }
    destruct (IH r1) as (trace & -> & Hall).
    eexists. split; [reflexivity|].
    destruct H1 as (added1 & Hbox1 & Hd1 & Hp1 & Hl1).
    constructor.
    + exists added1. auto.
    + eapply Forall_impl; [|exact Hall].
      intros r' (added & Hbox & Hd & Hp & Hl).
      exists (added1 ++ added).
      rewrite Hbox, Hbox1, Hd, Hd1, Hp, Hp1, Hl, Hl1, length_app, app_assoc.
      repeat split. lia.
Qed.

(** X2: after any run of ticks the counter is the larger of its starting
    value and the length of the longest log fetched with success; a shorter
    or a failed fetch never lowers it. *)
Theorem counter_is_longest_log_seen
  (fetches : list (option (list Message))) (r : Refresher) :
  exists trace,
    ticks fetches r = Some trace
    /\ currDepth (last trace r) = Nat.max (currDepth r) (longest fetches).
Proof. apply ticks_depth. Qed.

Lemma firstn_prefix_join {A} (H : list A) (d m : nat) :
  (d <= m)%nat -> firstn d H ++ skipn d (firstn m H) = firstn m H.
Proof.
  intros Hdm. rewrite <- (firstn_skipn d (firstn m H)) at 2.
  f_equal. rewrite firstn_firstn. f_equal. lia.
Qed.

Lemma merged_renders_prefix (H : list Message) (box : list jsstring)
  (n : nat) (r : Refresher) :
  contentBox r
  = box ++ map (msgLine (PS1 r) (location r)) (firstn (currDepth r) H) ->
  contentBox (merged (firstn n H) r)
  = box ++ map (msgLine (PS1 r) (location r))
             (firstn (currDepth (merged (firstn n H) r)) H).
Proof.
  intros Hinv. unfold merged.
  destruct (Nat.ltb_spec (currDepth r) (length (firstn n H))) as [Hlt|Hge];
    [|exact Hinv].
  cbn [contentBox currDepth].
  rewrite Hinv, <- app_assoc, <- map_app. do 2 f_equal.
  rewrite length_firstn in *.
  assert (Hn : firstn n H = firstn (Nat.min n (length H)) H).
  { destruct (Nat.le_ge_cases n (length H)) as [Hle|Hle].
    - now rewrite Nat.min_l.
    - rewrite Nat.min_r, firstn_all by exact Hle. now apply firstn_all2. }
  rewrite Hn. apply firstn_prefix_join. lia.
Qed.

Lemma last_in_or_default {A} (l : list A) (d : A) (P : A -> Prop) :
  P d -> Forall P l -> P (last l d).
Proof.
  intros Hd Hall. induction Hall as [|x l Hx Hall IH]; [exact Hd|].
  destruct l; [exact Hx | exact IH].
Qed.

Lemma ticks_render_prefix (H : list Message) (box : list jsstring)
  (fetches : list (option (list Message))) :
  (forall logs, In (Some logs) fetches -> exists n, logs = firstn n H) ->
  forall r : Refresher,
    contentBox r
    = box ++ map (msgLine (PS1 r) (location r)) (firstn (currDepth r) H) ->
    exists trace,
      ticks fetches r = Some trace
      /\ Forall (fun r' =>
                   contentBox r'
                   = box ++ map (msgLine (PS1 r) (location r))
                              (firstn (currDepth r') H)) trace.
Proof.
  induction fetches as [|f fetches IH]; intros Hpre r Hinv.
  - exists []. split; [reflexivity | constructor].
  - rewrite ticks_step.
    set (r1 := match f with Some logs => merged logs r | None => r end).
    assert (H1 : contentBox r1
                 = box ++ map (msgLine (PS1 r) (location r))
                            (firstn (currDepth r1) H)
                 /\ PS1 r1 = PS1 r /\ location r1 = location r).
    { subst r1. destruct f as [logs|]; [|auto].
      destruct (Hpre logs (or_introl eq_refl)) as [n ->].
      split; [now apply merged_renders_prefix|].
      destruct (merged_appends (firstn n H) r) as (_ & _ & _ & Hp & Hl).
      auto. }
    destruct H1 as (Hinv1 & Hp1 & Hl1).
    destruct (IH (fun logs Hin => Hpre logs (or_intror Hin)) r1)
      as (trace & -> & Hall).
    { now rewrite Hp1, Hl1. }
    eexists. split; [reflexivity|].
    constructor; [exact Hinv1|].
    now rewrite Hp1, Hl1 in Hall.
Qed.

(** X3: against an append-only store the merge is right whatever the order
    in which the responses arrive: when every fetched log is a prefix of
    one history [H], every state of a run started by the constructor shows
    the box's first content followed by the lines of the first [currDepth]
    messages of [H], in the order of [H], and the last state shows those of
    the longest log fetched. *)
Theorem sync_renders_store_prefix
  (H : list Message) (box : list jsstring) (ps1 loc : jsstring)
  (fetches : list (option (list Message))) :
  (forall logs, In (Some logs) fetches -> exists n, logs = firstn n H) ->
  exists trace,
    ticks fetches (constructor box ps1 loc) = Some trace
    /\ Forall (fun r =>
                 contentBox r
                 = box ++ map (msgLine ps1 loc) (firstn (currDepth r) H))
         trace
    /\ contentBox (last trace (constructor box ps1 loc))
       = box ++ map (msgLine ps1 loc) (firstn (longest fetches) H).
Proof.
  intros Hpre.
  destruct (ticks_render_prefix H box fetches Hpre (constructor box ps1 loc))
    as (trace & Hrun & Hall).
  { simpl. now rewrite app_nil_r. }
  exists trace. split; [exact Hrun | split; [exact Hall|]].
  destruct (ticks_depth fetches (constructor box ps1 loc))
    as (trace' & Hrun' & Hlast).
  rewrite Hrun in Hrun'. injection Hrun' as <-.
  simpl in Hlast. rewrite <- Hlast.
  apply (last_in_or_default trace (constructor box ps1 loc)
           (fun r => contentBox r
                     = box ++ map (msgLine ps1 loc) (firstn (currDepth r) H))).
  - simpl. now rewrite app_nil_r.
  - exact Hall.
Qed.

End SynchronizerRuns.

Lemma sync_renders_store_prefix_witness :
  let m1 := Refresher.mkMessage [] (str "bob") (str "one") (str "team") in
  let m2 := Refresher.mkMessage [] (str "eve") (str "two") (str "team") in
  let m3 := Refresher.mkMessage [] (str "bob") (str "three") (str "team") in
  let fetches := [Some [m1; m2]; None; Some [m1]; Some [m1; m2; m3]] in
  exists trace,
    Refresher.ticks fetches (Refresher.constructor [] (str "$") [])
    = Some trace
    /\ Forall (fun r =>
                 Refresher.contentBox r
                 = [] ++ map (Refresher.msgLine (str "$") [])
                           (firstn (Refresher.currDepth r) [m1; m2; m3]))
         trace
    /\ Refresher.contentBox
         (last trace (Refresher.constructor [] (str "$") []))
       = [] ++ map (Refresher.msgLine (str "$") [])
                 (firstn (Refresher.longest fetches) [m1; m2; m3]).
Proof.
  intros m1 m2 m3 fetches.
  apply (sync_renders_store_prefix [m1; m2; m3] [] (str "$") [] fetches).
  intros logs Hin. simpl in Hin.
  destruct Hin as [E|[E|[E|[E|[]]]]]; inversion E;
    [exists 2%nat | exists 1%nat | exists 3%nat]; reflexivity.
Defined.

(** ** Strings: cutting at occurrences *)

Section Cutting.

Lemma avoids_spec (cs : list N) (x : jsstring) :
  avoids cs x = true <-> forall c, In c x -> ~ In c cs.
Proof.
  unfold avoids. rewrite forallb_forall. split; intros H c Hc.
  - specialize (H c Hc). rewrite negb_true_iff in H. intros Hin.
    assert (existsb (N.eqb c) cs = true)
      by (apply existsb_exists; exists c; split; [exact Hin | apply N.eqb_refl]).
    congruence.
  - rewrite negb_true_iff. destruct (existsb (N.eqb c) cs) eqn:E; [|reflexivity].
    apply existsb_exists in E as (d & Hd & Heq). apply N.eqb_eq in Heq. subst d.
    exfalso. exact (H c Hc Hd).
Qed.


Lemma avoids_unit (cs : list N) (x : jsstring) (c : N) :
  avoids cs x = true -> In c cs -> ~ In c x.
Proof.
  intros H Hc Hx. destruct (avoids_spec cs x) as [Hf _]. exact (Hf H c Hx Hc).
Qed.

Lemma isPrefix_self_app (p b : jsstring) : isPrefix p (p ++ b) = true.
Proof. apply isPrefix_spec. now exists b. Qed.

Lemma isPrefix_head (p0 : N) (p' : jsstring) (c : N) (s : jsstring) :
  c <> p0 -> isPrefix (p0 :: p') (c :: s) = false.
Proof.
  intros Hc. simpl. destruct (N.eqb_spec p0 c); [congruence | reflexivity].
Qed.

(** An occurrence whose first code unit does not show up before it is the
    first one. *)
Lemma firstOccurrence_head_absent (p0 : N) (p' a b : jsstring) :
  ~ In p0 a -> firstOccurrence (p0 :: p') (a ++ (p0 :: p') ++ b) a b.
Proof.
  intros Ha. split; [reflexivity|]. intros a' b' Heq.
  destruct (Nat.le_gt_cases (length a) (length a')) as [Hle|Hgt];
    [exact Hle | exfalso].
  assert (Hn : nth_error (a ++ (p0 :: p') ++ b) (length a') = Some p0).
  { rewrite Heq, nth_error_app2, Nat.sub_diag by lia. reflexivity. }
  rewrite nth_error_app1 in Hn by exact Hgt.
  apply Ha. eapply nth_error_In. exact Hn.
Qed.

Lemma firstOccurrence_no_earlier (p s a b : jsstring) (j : nat) :
  firstOccurrence p s a b -> (j < length a)%nat ->
  isPrefix p (skipn j s) = false.
Proof.
  intros [Heq Hmin] Hj.
  destruct (isPrefix p (skipn j s)) eqn:E; [exfalso | reflexivity].
  apply isPrefix_spec in E as [b' Hb'].
  assert (Hs : s = firstn j s ++ p ++ b')
    by (rewrite <- Hb'; symmetry; apply firstn_skipn).
  specialize (Hmin _ _ Hs). rewrite length_firstn in Hmin.
  assert (length a <= length s)%nat
    by (rewrite Heq, length_app; lia).
  lia.
Qed.

Lemma split_go_skip (sep cur y rest : jsstring) :
  split_go sep (length y) cur (y ++ rest) = split_go sep 0 cur rest.
Proof. induction y as [|c y IH]; [reflexivity | exact IH]. Qed.

Lemma split_go_pass (sep a rest : jsstring) :
  forall cur,
  (forall j, (j < length a)%nat -> isPrefix sep (skipn j (a ++ rest)) = false) ->
  split_go sep 0 cur (a ++ rest) = split_go sep 0 (cur ++ a) rest.
Proof.
  induction a as [|c a IH]; intros cur Hno.
  - now rewrite app_nil_r.
  - simpl. specialize (Hno 0%nat (Nat.lt_0_succ _)) as H0. simpl in H0.
    rewrite H0. rewrite IH.
    + now rewrite <- app_assoc.
    + intros j Hj. apply (Hno (S j)). simpl. lia.
Qed.

Lemma split_go_hit (sep cur b : jsstring) :
  sep <> [] -> split_go sep 0 cur (sep ++ b) = cur :: split_go sep 0 [] b.
Proof.
  intros Hsep. destruct sep as [|p0 p']; [congruence|].
  change (split_go (p0 :: p') 0 cur ((p0 :: p') ++ b))
    with (if isPrefix (p0 :: p') ((p0 :: p') ++ b)
          then cur :: split_go (p0 :: p') (length (p0 :: p') - 1) []
                        (p' ++ b)
          else split_go (p0 :: p') 0 (cur ++ [p0]) (p' ++ b)).
  rewrite isPrefix_self_app. f_equal.
  replace (length (p0 :: p') - 1)%nat with (length p') by (simpl; lia).
  apply split_go_skip.
Qed.

(** [split] cuts at the first occurrence of the separator and goes on with
    what follows it. *)
Lemma split_first (sep s a b : jsstring) :
  sep <> [] -> firstOccurrence sep s a b -> split sep s = a :: split sep b.
Proof.
  intros Hsep Hfirst. destruct sep as [|p0 p']; [congruence|].
  unfold split. destruct Hfirst as [Heq Hmin]. rewrite Heq at 1.
  rewrite split_go_pass.
  - simpl app at 1. now apply split_go_hit.
  - intros j Hj. rewrite <- Heq.
    eapply firstOccurrence_no_earlier; [split; eassumption | exact Hj].
Qed.

(** Without an occurrence of the separator [split] returns the string as
    its only piece. *)
Lemma split_absent (sep s : jsstring) :
  sep <> [] -> includes sep s = false -> split sep s = [s].
Proof.
  intros Hsep Hinc. destruct sep as [|p0 p']; [congruence|].
  unfold split.
  rewrite <- (app_nil_r s) at 1. rewrite split_go_pass; [reflexivity|].
  intros j _. rewrite app_nil_r.
  destruct (isPrefix (p0 :: p') (skipn j s)) eqn:Hp; [exfalso | reflexivity].
  apply isPrefix_spec in Hp as [b Hb].
  assert (includes (p0 :: p') s = true).
  { apply includes_spec. exists (firstn j s), b. rewrite <- Hb.
    symmetry. apply firstn_skipn. }
  congruence.
Qed.

Lemma includes_short (p s : jsstring) :
  (length s < length p)%nat -> includes p s = false.
Proof.
  intros Hlen. destruct (includes p s) eqn:E; [exfalso | reflexivity].
  apply includes_spec in E as (a & b & ->). rewrite !length_app in Hlen. lia.
Qed.

Lemma includes_head_absent (p0 : N) (p' s : jsstring) :
  ~ In p0 s -> includes (p0 :: p') s = false.
Proof.
  intros Hs. destruct (includes (p0 :: p') s) eqn:E; [exfalso | reflexivity].
  apply includes_spec in E as (a & b & ->). apply Hs.
  apply in_or_app. right. now left.
Qed.

Lemma replaceAll_go_skip (p r y rest : jsstring) :
  replaceAll_go p r (length y) (y ++ rest) = replaceAll_go p r 0 rest.
Proof. induction y as [|c y IH]; [reflexivity | exact IH]. Qed.

Lemma replaceAll_pass (p0 : N) (p' r a rest : jsstring) :
  ~ In p0 a ->
  replaceAll (p0 :: p') r (a ++ rest) = a ++ replaceAll (p0 :: p') r rest.
Proof.
  unfold replaceAll. induction a as [|c a IH]; intros Ha; [reflexivity|].
  cbn [app replaceAll_go]. rewrite isPrefix_head.
  - f_equal. apply IH. intros H. apply Ha. now right.
  - intros ->. apply Ha. now left.
Qed.

Lemma replaceAll_hit (p r b : jsstring) :
  p <> [] -> replaceAll p r (p ++ b) = r ++ replaceAll p r b.
Proof.
  intros Hp. destruct p as [|p0 p']; [congruence|]. unfold replaceAll.
  change (replaceAll_go (p0 :: p') r 0 ((p0 :: p') ++ b))
    with (if isPrefix (p0 :: p') ((p0 :: p') ++ b)
          then r ++ replaceAll_go (p0 :: p') r (length (p0 :: p') - 1)
                      (p' ++ b)
          else p0 :: replaceAll_go (p0 :: p') r 0 (p' ++ b)).
  rewrite isPrefix_self_app. f_equal.
  replace (length (p0 :: p') - 1)%nat with (length p') by (simpl; lia).
  apply replaceAll_go_skip.
Qed.




(** [decodeURI] copies a string without a percent sign. *)
Lemma decodeURI_plain (s : jsstring) :
  ~ In percent s -> decodeURI s = Some s.
Proof.
  induction s as [|c s IH]; intros Hs; [reflexivity|].
  cbn [decodeURI]. destruct (N.eqb_spec c percent) as [->|Hc];
    [exfalso; apply Hs; now left|].
  simpl. rewrite IH by (intros H; apply Hs; now right). reflexivity.
Qed.

Lemma normalizeNewlines_plain (s : jsstring) :
  ~ In 13 s -> normalizeNewlines s = s.
Proof.
  induction s as [|c s IH]; intros Hs; [reflexivity|].
  cbn [normalizeNewlines]. destruct (N.eqb_spec c 13) as [->|Hc];
    [exfalso; apply Hs; now left|].
  f_equal. apply IH. intros H. apply Hs. now right.
Qed.

End Cutting.

(** ** Message store client and server: what travels in the URL *)

Section Transport.

Lemma urlSafe_alphabet (x : jsstring) (c : N) :
  In c (DB.urlSafe x) ->
  isDigit c || isLower c || (c =? underscore) = true.
Proof.
  rewrite urlSafe_map. intros Hc. apply in_map_iff in Hc as (d & <- & _).
  destruct (isDigit d) eqn:D; simpl; [now rewrite D|].
  destruct (isLower d) eqn:L; simpl; [now rewrite D, L|].
  destruct (isUpper d) eqn:U.
  - rewrite (upper_to_lower d U). now rewrite orb_true_r.
  - now rewrite orb_true_r.
Qed.

Lemma urlSafe_lacks (x : jsstring) (c : N) :
  isDigit c || isLower c || (c =? underscore) = false ->
  ~ In c (DB.urlSafe x).
Proof. intros Hc Hin. apply urlSafe_alphabet in Hin. congruence. Qed.

Lemma urlSafe_fixes (x : jsstring) :
  forallb (fun c => isDigit c || isLower c || (c =? underscore)) x = true ->
  DB.urlSafe x = x.
Proof.
  rewrite urlSafe_map. induction x as [|c x IH]; [reflexivity|].
  cbn [forallb map]. rewrite andb_true_iff. intros [Hc Hx].
  rewrite IH by exact Hx. f_equal.
  destruct (class_disjoint c) as (DU & DL & UL).
  destruct (isDigit c) eqn:D; [reflexivity|].
  destruct (isLower c) eqn:L; [reflexivity|]. simpl in *.
  apply N.eqb_eq in Hc. subst c. reflexivity.
Qed.

Lemma urlSafe_twice (x : jsstring) : DB.urlSafe (DB.urlSafe x) = DB.urlSafe x.
Proof.
  apply urlSafe_fixes. apply forallb_forall. intros c. apply urlSafe_alphabet.
Qed.

Lemma urlSafe_app (x y : jsstring) :
  DB.urlSafe (x ++ y) = DB.urlSafe x ++ DB.urlSafe y.
Proof. rewrite !urlSafe_map. apply map_app. Qed.

Lemma postMsg_value (alias content at_ : jsstring) :
  DB.postMsg alias content at_
  = Some (DB.endpoint ++ DB.urlSafe alias ++ str "/" ++ DB.urlSafe content
            ++ str "/" ++ DB.urlSafe at_).
Proof. unfold DB.postMsg. now rewrite !encodeURI_urlSafe. Qed.

(** X4: what [postMsg] puts in the URL uses only lower-case letters,
    digits and the underscore, has the length of the text it stands for
    and is not changed by a second pass; so a text and its sanitised form
    give the same request, and texts that differ only in case or in their
    punctuation collide. *)
Theorem urlSafe_is_a_projection (alias content at_ : jsstring) :
  (forall x : jsstring,
     DB.urlSafe (DB.urlSafe x) = DB.urlSafe x
     /\ length (DB.urlSafe x) = length x
     /\ forallb (fun c => isDigit c || isLower c || (c =? underscore))
          (DB.urlSafe x) = true)
  /\ DB.postMsg (DB.urlSafe alias) (DB.urlSafe content) (DB.urlSafe at_)
     = DB.postMsg alias content at_.
Proof.
  split.
  - intros x. split; [apply urlSafe_twice | split; [apply urlSafe_length|]].
    apply forallb_forall. intros c. apply urlSafe_alphabet.
  - now rewrite !postMsg_value, !urlSafe_twice.
Qed.

(** X5: the request of [postMsg] can be read back: after the endpoint the
    URL splits at its slashes into exactly three pieces, the sanitised
    alias, content and destination, whatever the three texts are, a slash
    or a percent sign in them included. *)
Theorem postMsg_url_has_three_segments (alias content at_ : jsstring) :
  exists url,
    DB.postMsg alias content at_ = Some url
    /\ firstn (length DB.endpoint) url = DB.endpoint
    /\ split (str "/") (skipn (length DB.endpoint) url)
       = [DB.urlSafe alias; DB.urlSafe content; DB.urlSafe at_].
Proof.
  eexists. split; [apply postMsg_value|].
  assert (Hslash : forall x, ~ In 47 (DB.urlSafe x))
    by (intros x; now apply urlSafe_lacks).
  split.
  - rewrite firstn_app, Nat.sub_diag, firstn_all, firstn_O. apply app_nil_r.
  - rewrite skipn_app, Nat.sub_diag, skipn_all. cbn [app skipn].
    rewrite (split_first (str "/") _ (DB.urlSafe alias)
               (DB.urlSafe content ++ str "/" ++ DB.urlSafe at_));
      [|discriminate | apply (firstOccurrence_head_absent 47 []); apply Hslash].
    f_equal.
    rewrite (split_first (str "/") _ (DB.urlSafe content) (DB.urlSafe at_));
      [|discriminate | apply (firstOccurrence_head_absent 47 []); apply Hslash].
    f_equal. apply split_absent; [discriminate|].
    apply (includes_head_absent 47 []). apply Hslash.
Qed.

Lemma constructPost_urlSafe (now alias content at_ : jsstring) :
  Server.constructPost now (DB.urlSafe alias) (DB.urlSafe content)
    (DB.urlSafe at_)
  = Some (Refresher.mkMessage now (DB.urlSafe alias) (DB.urlSafe content)
            (DB.urlSafe at_)).
Proof.
  unfold Server.constructPost.
  rewrite !decodeURI_plain by (now apply urlSafe_lacks). reflexivity.
Qed.

(** X6: the server's [constructPost] never raises on the three pieces of
    a request of this client, and stores them as they are: its [decodeURI]
    finds nothing to decode in them. *)
Theorem constructPost_keeps_client_pieces
  (now alias content at_ : jsstring) :
  Server.constructPost now (DB.urlSafe alias) (DB.urlSafe content)
    (DB.urlSafe at_)
  = Some (Refresher.mkMessage now (DB.urlSafe alias) (DB.urlSafe content)
            (DB.urlSafe at_)).
Proof. apply constructPost_urlSafe. Qed.

(** X7: a content of two words of lower-case letters and digits with one
    other character between them comes back readable: sent by [postMsg],
    stored by [constructPost] and rendered by [msgLine], the line ends in
    the two words with a space between them. *)
Theorem two_words_round_trip
  (now alias at_ ps1 loc a b : jsstring) (c : N) :
  forallb (fun u => isDigit u || isLower u) a = true ->
  forallb (fun u => isDigit u || isLower u) b = true ->
  isAlnum c = false ->
  exists m,
    Server.constructPost now (DB.urlSafe alias)
      (DB.urlSafe (a ++ [c] ++ b)) (DB.urlSafe at_) = Some m
    /\ Refresher.msgLine ps1 loc m
       = str "<span style=" ++ [dquote] ++ str "color: var(--secondary-text)"
           ++ [dquote] ++ str ">" ++ DB.urlSafe alias ++ str "@"
           ++ DB.urlSafe at_ ++ str ":</span><span style=" ++ [dquote]
           ++ str "color: var(--tertiary-text)" ++ [dquote; dquote]
           ++ str ">" ++ loc ++ str "</span><span style=" ++ [dquote]
           ++ str "color: var(--primary-text)" ++ [dquote] ++ str ">" ++ ps1
           ++ str "</span> " ++ a ++ str " " ++ b.
Proof.
  intros Ha Hb Hc. eexists. split; [apply constructPost_urlSafe|].
  assert (Hword : forall w,
             forallb (fun u => isDigit u || isLower u) w = true ->
             DB.urlSafe w = w /\ ~ In underscore w).
  { intros w Hw. split.
    - apply urlSafe_fixes. apply forallb_forall. intros u Hu.
      rewrite forallb_forall in Hw. now rewrite (Hw u Hu).
    - intros Hu. rewrite forallb_forall in Hw. specialize (Hw _ Hu).
      discriminate Hw. }
  destruct (Hword a Ha) as [Hsa Hua]. destruct (Hword b Hb) as [Hsb _].
  assert (Hsc : DB.urlSafe [c] = str "_").
  { rewrite urlSafe_map. unfold isAlnum in Hc. simpl.
    destruct (isDigit c), (isUpper c), (isLower c); try discriminate.
    reflexivity. }
  unfold Refresher.msgLine. cbn [Refresher.alias Refresher.at_ Refresher.content].
  rewrite !urlSafe_app, Hsa, Hsb, Hsc.
  rewrite (replaceFirst_underscore a b Hua).
  repeat rewrite <- app_assoc. reflexivity.
Qed.

Lemma two_words_round_trip_witness :
  exists m,
    Server.constructPost (str "2021-10-01") (DB.urlSafe (str "bob_1"))
      (DB.urlSafe (str "hi" ++ [32] ++ str "there"))
      (DB.urlSafe (str "team_x")) = Some m
    /\ Refresher.msgLine (str "$") [] m
       = str "<span style=" ++ [dquote] ++ str "color: var(--secondary-text)"
           ++ [dquote] ++ str ">" ++ DB.urlSafe (str "bob_1") ++ str "@"
           ++ DB.urlSafe (str "team_x") ++ str ":</span><span style="
           ++ [dquote] ++ str "color: var(--tertiary-text)"
           ++ [dquote; dquote] ++ str ">" ++ [] ++ str "</span><span style="
           ++ [dquote] ++ str "color: var(--primary-text)" ++ [dquote]
           ++ str ">" ++ str "$" ++ str "</span> " ++ str "hi" ++ str " "
           ++ str "there".
Proof.
  apply (two_words_round_trip (str "2021-10-01") (str "bob_1") (str "team_x")
           (str "$") [] (str "hi") (str "there") 32); reflexivity.
Defined.

End Transport.

(** ** The line pipeline: from a typed line to the parser *)

Section Pipeline.
Import Terminal.

Lemma getPrompt_head (s : Session) : exists q, getPrompt s = 60 :: 115 :: q.
Proof. eexists. reflexivity. Qed.

Lemma getPrompt_tail (s : Session) : exists q, getPrompt s = q ++ [gt].
Proof.
  unfold getPrompt.
  change (str "</span>") with (str "</span" ++ [gt]).
  rewrite !app_assoc. eexists. reflexivity.
Qed.

Lemma getPrompt_not_nil (s : Session) : getPrompt s <> [].
Proof. destruct (getPrompt_head s) as [q ->]. discriminate. Qed.

(** Whatever precedes it, a text that ends in the prompt and a space
    passes the line-boundary test. *)
Lemma endsAtPrompt_after_prompt (s : Session) (y : jsstring) :
  endsAtPrompt (y ++ getPrompt s ++ str " ") = true.
Proof.
  destruct (getPrompt_tail s) as [q ->].
  replace (y ++ (q ++ [gt]) ++ str " ") with ((y ++ q) ++ [gt; 32])
    by (rewrite <- !app_assoc; reflexivity).
  unfold endsAtPrompt, charAt. rewrite length_app. cbn [length].
  replace (Z.of_nat (length (y ++ q) + 2) - 2)%Z
    with (Z.of_nat (length (y ++ q))) by lia.
  destruct (Z.ltb_spec (Z.of_nat (length (y ++ q))) 0); [lia|].
  rewrite Nat2Z.id, nth_error_app2, Nat.sub_diag by lia. reflexivity.
Qed.

Lemma regularPrompt_spec (s : Session) :
  regularPrompt s = true ->
  plainTemplate (str "<br />" ++ getPrompt s ++ str " ") = true
  /\ replaceAll (str "<br />") [] (getPrompt s ++ str " ")
     = getPrompt s ++ str " "
  /\ ~ In 13 (getPrompt s) /\ ~ In percent (getPrompt s).
Proof.
  unfold regularPrompt. rewrite !andb_true_iff. intros [[Ht Hb] Ha].
  apply eqs_spec in Hb.
  repeat split; try assumption;
    apply (avoids_unit [13; percent] _ _ Ha); simpl; auto.
Qed.

Lemma plainText_spec (x : jsstring) :
  plainText x = true ->
  ~ In 60 x /\ ~ In newline x /\ ~ In 13 x /\ ~ In percent x.
Proof.
  intros H. repeat split;
    apply (avoids_unit [60; newline; 13; percent] _ _ H); simpl; auto.
Qed.


(** Without a line feed [linebreak] changes nothing. *)
Lemma linebreak_none (s : Session) (x : jsstring) :
  ~ In newline x -> Commands.linebreak x s = (x, s).
Proof.
  intros Hx. unfold Commands.linebreak, replaceNewlines. f_equal.
  generalize (@nil N) as before.
  induction x as [|c x IH]; intros before; [reflexivity|].
  cbn [replaceNewlines_go]. destruct (N.eqb_spec c newline) as [->|Hc];
    [exfalso; apply Hx; now left|].
  f_equal. apply IH. intros H. apply Hx. now right.
Qed.

(** After [linebreak] the parser's current line is the typed line. *)
Lemma currText_line (s : Session) (x : jsstring) :
  regularPrompt s = true -> ~ In 60 x ->
  currText s (x ++ str "<br />" ++ getPrompt s ++ str " ") = Some x.
Proof.
  intros Hs Hx. destruct (regularPrompt_spec s Hs) as (_ & Hbr & _).
  unfold currText, currLine.
  change (str "<br />") with (60 :: str "br />") in *.
  rewrite (replaceAll_pass 60 _ [] x) by exact Hx.
  rewrite replaceAll_hit by discriminate. rewrite Hbr. cbn [app].
  destruct (getPrompt_head s) as [q Hq].
  rewrite (split_first (getPrompt s) _ x (str " "));
    [|apply getPrompt_not_nil
     |rewrite Hq; apply (firstOccurrence_head_absent 60); exact Hx].
  rewrite split_absent;
    [reflexivity | apply getPrompt_not_nil |].
  apply includes_short. rewrite Hq. simpl. lia.
Qed.

(** What the parser returns on a line [linebreak] has closed. *)
Lemma parse_line (s : Session) (x command : jsstring) (nargs : bool) :
  regularPrompt s = true -> ~ In 60 x ->
  _parseArg s (x ++ str "<br />" ++ getPrompt s ++ str " ") command nargs
  = if nonEmpty x then
      if eqs command (str "decoded") then Text (trim x)
      else if includes command x then
        if negb nargs then PTrue
        else Text (trim (replaceFirst command [] x))
      else Undefined
    else Undefined.
Proof.
  intros Hs Hx. unfold _parseArg. rewrite currText_line by assumption.
  replace (x ++ str "<br />" ++ getPrompt s ++ str " ")
    with ((x ++ str "<br />") ++ getPrompt s ++ str " ")
    by (now rewrite <- app_assoc).
  rewrite endsAtPrompt_after_prompt, andb_true_r. reflexivity.
Qed.

(** A text in which the prompt does not occur has no current line. *)
Lemma parse_no_prompt (s : Session) (input command : jsstring)
  (nargs : bool) :
  includes (getPrompt s) (replaceAll (str "<br />") [] input) = false ->
  _parseArg s input command nargs = Undefined.
Proof.
  intros Hinc. unfold _parseArg, currText, currLine.
  rewrite split_absent by (try apply getPrompt_not_nil; exact Hinc).
  reflexivity.
Qed.

Lemma parse_no_tag (s : Session) (input command : jsstring) (nargs : bool) :
  ~ In 60 input -> _parseArg s input command nargs = Undefined.
Proof.
  intros Hx. apply parse_no_prompt.
  change (str "<br />") with (60 :: str "br />").
  rewrite <- (app_nil_r input), (replaceAll_pass 60 _ [] input) by exact Hx.
  destruct (getPrompt_head s) as [q ->]. cbn [replaceAll replaceAll_go].
  rewrite app_nil_r. now apply includes_head_absent.
Qed.

End Pipeline.

(** ** Keystrokes on the default command table *)

Section Keystrokes.
Import Terminal.

Lemma runCommands_cons (k : jsstring) (f : command) (rest : object JSValue)
  (input : jsstring) (s : Session) :
  runCommands ((k, VFunction f) :: rest) input s
  = runCommands rest (fst (f input s)) (snd (f input s)).
Proof. simpl. now destruct (f input s). Qed.

Lemma echo_skip (s : Session) (input : jsstring) :
  truthy (_parseArg s input (str "echo") true) = false ->
  Commands.echo input s = (input, s).
Proof. intros H. unfold Commands.echo. now rewrite H. Qed.

Lemma help_skip (s : Session) (input : jsstring) :
  truthy (_parseArg s input (str "help") false) = false ->
  Commands.help input s = (input, s).
Proof. intros H. unfold Commands.help. now rewrite H. Qed.

Lemma color_skip (s : Session) (input : jsstring) :
  truthy (_parseArg s input (str "color") true) = false ->
  Commands.color input s = (input, s).
Proof. intros H. unfold Commands.color. now rewrite H. Qed.

Lemma text_skip (s : Session) (input : jsstring) :
  truthy (_parseArg s input (str "text") true) = false ->
  Commands.text input s = (input, s).
Proof. intros H. unfold Commands.text. now rewrite H. Qed.

Lemma theme_skip (s : Session) (input : jsstring) :
  truthy (_parseArg s input (str "lightmode") false) = false ->
  truthy (_parseArg s input (str "darkmode") false) = false ->
  Commands.theme input s = (input, s).
Proof. intros H1 H2. unfold Commands.theme. now rewrite H1, H2. Qed.

Lemma cd_skip (s : Session) (input : jsstring) :
  truthy (_parseArg s input (str "cd ") true) = false ->
  Commands.cd input s = (input, s).
Proof. intros H. unfold Commands.cd. now rewrite H. Qed.

Lemma cd_text (s : Session) (input : jsstring) :
  fst (Commands.cd input s) = input.
Proof.
  unfold Commands.cd.
  now destruct (truthy (_parseArg s input (str "cd ") true)).
Qed.

(** The table after [linebreak], on a text none of the first five
    commands reacts to: the text goes through, and only [cd] may touch the
    session. *)
Lemma run_builtins_to_cd (s : Session) (input : jsstring) :
  truthy (_parseArg s input (str "echo") true) = false ->
  truthy (_parseArg s input (str "help") false) = false ->
  truthy (_parseArg s input (str "color") true) = false ->
  truthy (_parseArg s input (str "text") true) = false ->
  truthy (_parseArg s input (str "lightmode") false) = false ->
  truthy (_parseArg s input (str "darkmode") false) = false ->
  runCommands (tl defaultCommands) input s
  = (Normal input, snd (Commands.cd input s)).
Proof.
  intros He Hh Hc Ht Hl Hd. unfold defaultCommands. cbn [tl].
  rewrite runCommands_cons, echo_skip by exact He. cbn [fst snd].
  rewrite runCommands_cons, help_skip by exact Hh. cbn [fst snd].
  rewrite runCommands_cons, color_skip by exact Hc. cbn [fst snd].
  rewrite runCommands_cons, text_skip by exact Ht. cbn [fst snd].
  rewrite runCommands_cons, theme_skip by assumption. cbn [fst snd].
  rewrite runCommands_cons, cd_text. reflexivity.
Qed.

Lemma run_default (s : Session) (input : jsstring) :
  runCommands defaultCommands input s
  = runCommands (tl defaultCommands) (fst (Commands.linebreak input s)) s.
Proof. unfold defaultCommands. rewrite runCommands_cons. reflexivity. Qed.

(** The timeout function, once the command loop has returned. *)
Lemma timeoutBody_after (o : object JSValue) (s s1 : Session)
  (input : jsstring) :
  runCommands o (stdin_value s) s = (Normal input, s1) ->
  timeoutBody o s
  = let formatted :=
      if truthy (_parseArg s1 input (str "clear") false) || cwd s1
      then [] else input in
    let s2 :=
      set_stdout_innerHTML
        (getPrompt s1 ++ str " " ++ formatted ++ str " ") s1 in
    match decodeURI formatted with
    | None => (Throw URIError, s2)
    | Some decoded =>
        persist o formatted (set_stdin_value (normalizeNewlines decoded) s2)
    end.
Proof.
  intros Hrun. unfold timeoutBody, bind at 1, get at 1.
  unfold bind at 1. rewrite Hrun.
  cbv beta iota zeta delta [bind get modify].
  set (formatted :=
         if truthy (_parseArg s1 input (str "clear") false) || cwd s1
         then [] else input).
  destruct (decodeURI formatted); reflexivity.
Qed.

(** The persistence step, with the request written out. *)
Lemma persist_value (o : object JSValue) (formatted : jsstring)
  (s : Session) :
  persist o formatted s
  = match _parseArg s formatted (str "decoded") false with
    | Undefined => (Normal tt, s)
    | PTrue => (Throw TypeError, s)
    | Text message =>
        if nonEmpty message
           && negb (existsb (eqs (trim (hd [] (split (str " ") message))))
                      (keys o))
        then (Normal tt,
              add_request
                (DB.endpoint ++ DB.urlSafe (user s) ++ str "/"
                   ++ DB.urlSafe message ++ str "/" ++ DB.urlSafe (_path s))
                s)
        else (Normal tt, s)
    end.
Proof.
  unfold persist, bind, get.
  destruct (_parseArg s formatted (str "decoded") false) as [| |message];
    try reflexivity.
  destruct (nonEmpty message
            && negb (existsb (eqs (trim (hd [] (split (str " ") message))))
                       (keys o))); [|reflexivity].
  unfold post, bind, get. now rewrite postMsg_value.
Qed.

(** A keydown that passes the guard. *)
Lemma keydown_processed (edit : jsstring -> jsstring) (t : Terminal) :
  _buffer (session t) <> length (stdin_value (session t)) ->
  keydown edit t
  = let s := session t in
    let (c, s') :=
      timeoutBody (_Commands t)
        (set_stdin_value (edit (stdin_value s))
           (set_cwd false (set_buffer (length (stdin_value s)) s))) in
    (c, mkTerminal s' (_Commands t)).
Proof.
  intros Hlen. unfold keydown.
  rewrite takeInput_processes_changed_length
    by (unfold textLength; congruence).
  reflexivity.
Qed.








Lemma includes_nonEmpty (k x : jsstring) :
  k <> [] -> includes k x = true -> nonEmpty x = true.
Proof.
  intros Hk Hinc. apply includes_spec in Hinc as (a & b & ->).
  destruct a; [destruct k; [congruence | reflexivity] | reflexivity].
Qed.






(** X11: before Enter nothing happens but the echo.  With the default
    table, a processed keystroke that leaves in the textarea a text without
    [<], line break or [%] shows that text after the prompt and changes
    nothing else: no command reacts, the path, the styles and the flag
    stay, and nothing is sent, whatever the text says. *)
Theorem typing_only_echoes
  (t : Terminal) (edit : jsstring -> jsstring) (x : jsstring) :
  _Commands t = defaultCommands ->
  _buffer (session t) <> length (stdin_value (session t)) ->
  edit (stdin_value (session t)) = x ->
  plainText x = true ->
  let s := session t in
  exists s',
    keydown edit t = (Normal tt, mkTerminal s' defaultCommands)
    /\ stdout_innerHTML s' = getPrompt s ++ str " " ++ x ++ str " "
    /\ stdin_value s' = x
    /\ requests s' = requests s
    /\ _path s' = _path s /\ cwd s' = false
    /\ stdout_style s' = stdout_style s
    /\ documentElement_style s' = documentElement_style s.
Proof.
  intros Ho Hb He Hx. cbv zeta.
  destruct (plainText_spec x Hx) as (Hlt & Hnl & Hcr & Hpc).
  rewrite keydown_processed by exact Hb.
  cbv zeta. rewrite Ho, He.
  set (s0 := set_stdin_value x
               (set_cwd false
                  (set_buffer (length (stdin_value (session t)))
                     (session t)))).
  rewrite (timeoutBody_after defaultCommands s0 s0 x).
  2:{ change (stdin_value s0) with x.
      rewrite run_default, linebreak_none by exact Hnl. cbn [fst].
      rewrite run_builtins_to_cd by (now rewrite parse_no_tag).
      f_equal. rewrite cd_skip; [reflexivity|]. now rewrite parse_no_tag. }
  cbv zeta. rewrite parse_no_tag by exact Hlt.
  change (truthy Undefined || cwd s0) with false. cbv iota.
  rewrite decodeURI_plain, normalizeNewlines_plain by assumption.
  rewrite persist_value, parse_no_tag by exact Hlt.
  eexists. split; [reflexivity|]. repeat split.
Qed.

Lemma typing_only_echoes_witness :
  exists s',
    keydown (fun v => v ++ str "o") (type (str "ech") fresh)
    = (Normal tt, mkTerminal s' defaultCommands)
    /\ stdin_value s' = str "echo" /\ requests s' = [].
Proof.
  destruct (typing_only_echoes (type (str "ech") fresh)
              (fun v => v ++ str "o") (str "echo"))
    as (s' & Hkey & _ & Hin & Hreq & _);
    try (vm_compute; reflexivity).
  - vm_compute. intros H. discriminate H.
  - exists s'. split; [exact Hkey|]. rewrite Hreq, Hin. vm_compute.
    split; reflexivity.
Defined.

End Keystrokes.

(** ** The command table and what every keystroke keeps *)

Section Table.
Import Terminal.

Lemma onlyMoves_refl (s : Session) : onlyMoves s s.
Proof.
  unfold onlyMoves. repeat split. exists []. now rewrite app_nil_r.
Qed.

Lemma onlyMoves_trans (s1 s2 s3 : Session) :
  onlyMoves s1 s2 -> onlyMoves s2 s3 -> onlyMoves s1 s3.
Proof.
  unfold onlyMoves.
  intros (A1 & A2 & A3 & A4 & A5 & A6 & A7 & A8 & A9 & A10 & e1 & A11)
         (B1 & B2 & B3 & B4 & B5 & B6 & B7 & B8 & B9 & B10 & e2 & B11).
  repeat split; try congruence.
  exists (e1 ++ e2). rewrite B11, A11. now rewrite app_assoc.
Qed.

(** Each built-in command only moves the session. *)
Lemma builtin_onlyMoves (k : jsstring) (f : command) :
  In (k, VFunction f) defaultCommands ->
  forall input s, onlyMoves s (snd (f input s)).
Proof.
  unfold defaultCommands. simpl.
  intros [H|[H|[H|[H|[H|[H|[H|[]]]]]]]] input s;
    injection H as _ <-.
  - apply onlyMoves_refl.
  - unfold Commands.echo.
    destruct (truthy _); apply onlyMoves_refl.
  - unfold Commands.help.
    destruct (truthy _); apply onlyMoves_refl.
  - unfold Commands.color.
    destruct (truthy _); [|apply onlyMoves_refl].
    unfold onlyMoves. simpl. repeat split. exists []. now rewrite app_nil_r.
  - unfold Commands.text.
    destruct (truthy _); [|apply onlyMoves_refl].
    unfold onlyMoves. simpl. repeat split. exists []. now rewrite app_nil_r.
  - unfold Commands.theme, Commands.toggle, Commands.resetBg.
    repeat match goal with
           | |- context [if ?b then _ else _] => destruct b
           end;
      unfold onlyMoves; simpl; repeat split; exists [];
      now rewrite app_nil_r.
  - unfold Commands.cd.
    destruct (truthy _); [|apply onlyMoves_refl].
    unfold onlyMoves. simpl. repeat split. eexists. reflexivity.
Qed.

Lemma defaultCommands_functions (k : jsstring) (v : JSValue) :
  In (k, v) defaultCommands -> exists f, v = VFunction f.
Proof.
  unfold defaultCommands. simpl.
  intros [H|[H|[H|[H|[H|[H|[H|[]]]]]]]]; injection H as _ <-; eauto.
Qed.

(** Over a table of built-in commands the command loop ends normally and
    only moves the session. *)
Lemma run_builtins (o : object JSValue) :
  (forall e, In e o -> In e defaultCommands) ->
  forall input s,
  exists input' s',
    runCommands o input s = (Normal input', s') /\ onlyMoves s s'.
Proof.
  induction o as [|[k v] o IH]; intros Hsub input s.
  - exists input, s. split; [reflexivity | apply onlyMoves_refl].
  - assert (Hin : In (k, v) defaultCommands) by (apply Hsub; now left).
    destruct (defaultCommands_functions k v Hin) as [f ->].
    rewrite runCommands_cons.
    destruct (IH (fun e He => Hsub e (or_intror He))
                (fst (f input s)) (snd (f input s)))
      as (input' & s' & Hrun & Hmove).
    exists input', s'. split; [exact Hrun|].
    eapply onlyMoves_trans; [|exact Hmove].
    now apply (builtin_onlyMoves k f).
Qed.

(** For [decoded] the parser returns a string or [undefined], never
    [true]. *)
Lemma parse_decoded_cases (s : Session) (input : jsstring) (nargs : bool) :
  _parseArg s input (str "decoded") nargs = Undefined
  \/ exists message, _parseArg s input (str "decoded") nargs = Text message.
Proof.
  unfold _parseArg. destruct (currText s input) as [line|]; [|now left].
  destruct (nonEmpty line && endsAtPrompt input); [|now left].
  right. eexists. reflexivity.
Qed.

Lemma deleteProp_sub {V} (k : jsstring) (o : object V) (e : jsstring * V) :
  In e (deleteProp k o) -> In e o.
Proof. unfold deleteProp. intros H. now apply filter_In in H. Qed.

Lemma exclude_filter {V} (excluded : list jsstring) :
  forall o : object V,
  fold_left (fun o excludeCommand => deleteProp excludeCommand o) excluded o
  = filter (fun e => negb (existsb (eqs (fst e)) excluded)) o.
Proof.
  induction excluded as [|k excluded IH]; intros o; simpl.
  - induction o as [|e o IHo]; [reflexivity|]. simpl. now rewrite <- IHo.
  - rewrite IH. unfold deleteProp. clear IH.
    induction o as [|e o IHo]; [reflexivity|]. simpl.
    destruct (eqs (fst e) k); simpl; [exact IHo|].
    destruct (existsb (eqs (fst e)) excluded); simpl; [exact IHo|].
    now rewrite IHo.
Qed.

Lemma keys_filter {V} (p : jsstring -> bool) (o : object V) :
  keys (filter (fun e => p (fst e)) o) = filter p (keys o).
Proof.
  unfold keys. induction o as [|e o IH]; [reflexivity|]. simpl.
  destruct (p (fst e)); simpl; now rewrite IH.
Qed.

(** X12: the constructor's exclusion list.  The commands of a new
    terminal are the built-in ones whose names are not excluded, in their
    usual order; an excluded name is not listed, a name that is no command
    is ignored, and every entry left is a built-in function. *)
Theorem constructor_excludes_commands (page : Page) (options : Options) :
  let t := constructor page options in
  commandNames t
  = filter (fun name => negb (existsb (eqs name) (excludedCommands options)))
      (keys defaultCommands)
  /\ (forall name, In name (excludedCommands options) ->
        ~ In name (commandNames t))
  /\ (forall e, In e (_Commands t) -> In e defaultCommands).
Proof.
  cbv zeta. unfold constructor, commandNames. cbn [_Commands].
  rewrite exclude_filter.
  split; [apply (keys_filter
                   (fun name =>
                      negb (existsb (eqs name) (excludedCommands options))))|].
  split.
  - intros name Hex Hin.
    rewrite (keys_filter
               (fun name =>
                  negb (existsb (eqs name) (excludedCommands options))))
      in Hin.
    apply filter_In in Hin as [_ Hneg]. rewrite negb_true_iff in Hneg.
    assert (existsb (eqs name) (excludedCommands options) = true)
      by (apply existsb_exists; exists name; split;
          [exact Hex | apply eqs_refl]).
    congruence.
  - intros e He. now apply filter_In in He.
Qed.

(** X13: the first keydown after construction is never processed.  The
    constructor records the length of the text it finds in the textarea, so
    the listener's guard stops the first event whatever the page and the
    options are: no command runs and nothing is rendered or sent until a
    second key. *)
Theorem first_keydown_is_ignored
  (page : Page) (options : Options) (edit : jsstring -> jsstring) :
  let t := initialize (constructor page options) in
  _takeInput t = (t, false)
  /\ keydown edit t
     = (Normal tt,
        withSession (set_stdin_value (edit (textarea_value page))) t).
Proof.
  cbv zeta.
  assert (Hguard : _takeInput (initialize (constructor page options))
                   = (initialize (constructor page options), false)).
  { unfold _takeInput, textLength. cbn. now rewrite Nat.eqb_refl. }
  split; [exact Hguard|]. unfold keydown. now rewrite Hguard.
Qed.

(** X14: no keystroke on a table of built-in commands sends more than one
    request, shortens the path or changes the user.  For every terminal
    whose entries are built-in commands and every keydown, the command loop
    raises no TypeError, the path afterwards starts with the path before,
    the user and the table are the same, and the requests are those before
    with at most one more at the end. *)
Theorem keydown_sends_at_most_once
  (t : Terminal) (edit : jsstring -> jsstring) :
  (forall e, In e (_Commands t) -> In e defaultCommands) ->
  let t' := snd (keydown edit t) in
  fst (keydown edit t) <> Throw TypeError
  /\ _Commands t' = _Commands t
  /\ user (session t') = user (session t)
  /\ (exists segment,
        _path (session t') = _path (session t) ++ segment)
  /\ (requests (session t') = requests (session t)
      \/ exists url,
           requests (session t') = requests (session t) ++ [url]).
Proof.
  intros Hsub. cbv zeta. unfold keydown.
  destruct (_takeInput t) as [t1 scheduled] eqn:Hguard.
  unfold _takeInput in Hguard.
  destruct (Nat.eqb (textLength (session t)) (_buffer (session t)));
    injection Hguard as <- <-.
  - cbn. repeat split; try discriminate.
    + exists []. now rewrite app_nil_r.
    + now left.
  - cbn [withSession session _Commands].
    set (s0 := set_stdin_value _ _).
    destruct (run_builtins (_Commands t) Hsub (stdin_value s0) s0)
      as (input & s1 & Hrun & Hmove).
    rewrite (timeoutBody_after _ _ _ _ Hrun). cbv zeta.
    destruct Hmove as (U & _ & _ & _ & _ & _ & _ & _ & _ & R & ext & Pth).
    change (user s0) with (user (session t)) in U.
    change (requests s0) with (requests (session t)) in R.
    change (_path s0) with (_path (session t)) in Pth.
    destruct (decodeURI _) as [decoded|].
    + rewrite persist_value.
      match goal with
      | |- context [_parseArg ?s ?f (str "decoded") false] =>
          destruct (parse_decoded_cases s f false) as [-> | [message ->]]
      end.
      * cbn. repeat split; try discriminate; eauto.
      * destruct (nonEmpty message && _); cbn;
          repeat split; try discriminate; eauto.
        right. rewrite R. eauto.
    + cbn. repeat split; try discriminate; eauto.
Qed.

Lemma keydown_sends_at_most_once_witness :
  let t := type (str "hi there") fresh in
  let t' := snd (keydown (fun v => v ++ [newline]) t) in
  fst (keydown (fun v => v ++ [newline]) t) <> Throw TypeError
  /\ _Commands t' = _Commands t
  /\ user (session t') = user (session t)
  /\ (exists segment,
        _path (session t') = _path (session t) ++ segment)
  /\ (requests (session t') = requests (session t)
      \/ exists url,
           requests (session t') = requests (session t) ++ [url]).
Proof.
  apply (keydown_sends_at_most_once (type (str "hi there") fresh)
           (fun v => v ++ [newline])).
  intros e He. exact He.
Defined.

End Table.

(** ** Single commands *)

Section SingleCommands.
Import Terminal.

(** [popPrompt] is meant to drop the closing prompt and its space, and
    leaves the first two code units of the prompt behind. *)
Lemma popPrompt_line (s : Session) (y : jsstring) :
  popPrompt s (y ++ getPrompt s ++ str " ") = y ++ str "<s".
Proof.
  unfold popPrompt, substring0. rewrite !length_app.
  replace (Z.to_nat
             (Z.of_nat (length y + (length (getPrompt s) + length (str " ")))
              + 1 - Z.of_nat (length (getPrompt s))))
    with (length y + 2)%nat by (simpl length; lia).
  rewrite firstn_app, firstn_all2 by lia.
  replace (length y + 2 - length y)%nat with 2%nat by lia.
  destruct (getPrompt_head s) as [q ->]. reflexivity.
Qed.

(** X15: what [echo] returns on a line closed by Enter.  With a regular
    prompt and a typed line [x] without [<] in which [echo] occurs, the
    text becomes the line, a line break, the two code units [<s] that
    [popPrompt] leaves of the old prompt, a line break, the rest of the
    line without its first [echo], trimmed, a line break and a fresh
    prompt; the session is not touched. *)
Theorem echo_output (s : Session) (x a b : jsstring) :
  regularPrompt s = true -> ~ In 60 x ->
  firstOccurrence (str "echo") x a b ->
  trim (a ++ b) <> [] ->
  Commands.echo (x ++ str "<br />" ++ getPrompt s ++ str " ") s
  = (x ++ str "<br /><s<br />" ++ trim (a ++ b) ++ str "<br />    "
       ++ getPrompt s ++ str " ", s).
Proof.
  intros Hs Hx Hfirst Harg.
  assert (Hinc : includes (str "echo") x = true).
  { apply includes_spec. destruct Hfirst as [-> _]. eauto. }
  assert (Hne : nonEmpty x = true)
    by (apply (includes_nonEmpty (str "echo")); [discriminate | exact Hinc]).
  unfold Commands.echo. rewrite parse_line by assumption.
  rewrite Hne, Hinc.
  change (eqs (str "echo") (str "decoded")) with false. cbv iota.
  rewrite (replaceFirst_spec _ [] _ _ _ Hfirst). cbn [negb app truthy toString].
  destruct (trim (a ++ b)) as [|c w] eqn:E; [congruence|].
  cbn [nonEmpty]. cbv iota. f_equal.
  replace (x ++ str "<br />" ++ getPrompt s ++ str " ")
    with ((x ++ str "<br />") ++ getPrompt s ++ str " ")
    by (now rewrite <- app_assoc).
  rewrite popPrompt_line. repeat rewrite <- app_assoc. reflexivity.
Qed.

Lemma echo_output_witness :
  Commands.echo
    (str "echo hello world" ++ str "<br />" ++ getPrompt (session fresh)
       ++ str " ") (session fresh)
  = (str "echo hello world" ++ str "<br /><s<br />"
       ++ trim ([] ++ str " hello world") ++ str "<br />    "
       ++ getPrompt (session fresh) ++ str " ", session fresh).
Proof.
  apply (echo_output (session fresh) (str "echo hello world") []
           (str " hello world")).
  - vm_compute. reflexivity.
  - vm_compute. intuition discriminate.
  - apply (firstOccurrence_head_absent 101 (str "cho") [] (str " hello world")).
    intros [].
  - vm_compute. intros H. discriminate H.
Defined.



(** X17: a text in which the current prompt does not occur is not
    parsed: [_parseArg] returns [undefined] for every command and both
    values of [nargs], and the persistence step sends nothing.  Lines
    rendered under an earlier prompt, before a [cd] or a change of user,
    are among such texts. *)
Theorem parse_needs_current_prompt
  (s : Session) (input command : jsstring) (nargs : bool)
  (o : object JSValue) :
  includes (getPrompt s) (replaceAll (str "<br />") [] input) = false ->
  _parseArg s input command nargs = Undefined
  /\ persist o input s = (Normal tt, s).
Proof.
  intros Hinc. split; [now apply parse_no_prompt|].
  rewrite persist_value. now rewrite parse_no_prompt.
Qed.

Lemma parse_needs_current_prompt_witness :
  let old := session (type (str "hi there" ++ [newline]) fresh) in
  let now := set_path (str "~/lobby") old in
  _parseArg old (stdin_value old) (str "decoded") false
  = Text (str "hi there")
  /\ _parseArg now (stdin_value old) (str "decoded") false = Undefined
  /\ persist defaultCommands (stdin_value old) now = (Normal tt, now).
Proof.
  intros old now. split; [vm_compute; reflexivity|].
  apply (parse_needs_current_prompt now (stdin_value old) (str "decoded")
           false defaultCommands).
  vm_compute. reflexivity.
Defined.

End SingleCommands.

(** ** Registering commands *)

Section Registering.
Import Terminal.




Lemma insertIndexed_front {V} (n : N) (k : jsstring) (v : V) (o : object V) :
  (forall k', In k' (keys o) -> arrayIndex k' = None) ->
  insertIndexed n k v o = (k, v) :: o.
Proof.
  destruct o as [|[k' v'] o]; intros Hnone; [reflexivity|]. simpl.
  now rewrite (Hnone k' (or_introl eq_refl)).
Qed.

Lemma hasProp_names {V} (k : jsstring) (o : object V) :
  hasProp k o = true -> In k (keys o).
Proof.
  unfold hasProp, keys. intros H.
  apply existsb_exists in H as (e & He & Heq). apply eqs_spec in Heq.
  subst k. now apply in_map.
Qed.

(** X19: [addCommand] under a name that is an array index, such as [7].
    In a table whose names are ordinary, as the built-in ones are, the new
    entry is enumerated first: its executor runs before every other
    command, [linebreak] included, on the raw text of the textarea. *)
Theorem addCommand_index_runs_first
  (source name : jsstring) (f : command) (t : Terminal) (i : N) :
  arrayIndex name = Some i ->
  (forall k, In k (commandNames t) -> arrayIndex k = None) ->
  let t' := addCommand (AFunction source f) (AString name) t in
  _Commands t' = (name, VFunction f) :: _Commands t
  /\ forall input s,
       runCommands (_Commands t') input s
       = runCommands (_Commands t) (fst (f input s)) (snd (f input s)).
Proof.
  intros Hidx Hnone. cbv zeta. unfold addCommand.
  cbn [_Commands ToPropertyKey valueOf].
  assert (Heq : setProp name (VFunction f) (_Commands t)
                = (name, VFunction f) :: _Commands t).
  { unfold setProp. destruct (hasProp name (_Commands t)) eqn:Hhas.
    - apply hasProp_names in Hhas. specialize (Hnone _ Hhas). congruence.
    - rewrite Hidx. now apply insertIndexed_front. }
  rewrite Heq. split; [reflexivity|]. intros input s.
  apply runCommands_cons.
Qed.

Lemma addCommand_index_runs_first_witness :
  let shout : command := fun input s => (input ++ str "!", s) in
  commandNames
    (addCommand (AFunction (str "(i) => i + '!'") shout)
       (AString (str "7")) fresh)
  = str "7" :: commandNames fresh.
Proof.
  intros shout.
  destruct (addCommand_index_runs_first (str "(i) => i + '!'") (str "7")
              shout fresh 7 eq_refl) as [Heq _].
  - intros k Hk. simpl in Hk.
    repeat (destruct Hk as [<-|Hk]; [reflexivity|]). destruct Hk.
  - unfold commandNames. rewrite Heq. reflexivity.
Defined.

(** X20: a terminal without commands never sends.  With every command
    excluded nothing turns a line break into a prompt, so for a text
    without [<], carriage return or percent sign a processed keystroke,
    Enter included, shows the text after the prompt, leaves it in the
    textarea and sends nothing. *)
Theorem empty_table_never_posts
  (t : Terminal) (edit : jsstring -> jsstring) (x : jsstring) :
  _Commands t = [] ->
  _buffer (session t) <> length (stdin_value (session t)) ->
  edit (stdin_value (session t)) = x ->
  avoids [60; 13; percent] x = true ->
  let s := session t in
  exists s',
    keydown edit t = (Normal tt, mkTerminal s' [])
    /\ stdout_innerHTML s' = getPrompt s ++ str " " ++ x ++ str " "
    /\ stdin_value s' = x
    /\ requests s' = requests s
    /\ _path s' = _path s.
Proof.
  intros Ho Hb He Hx. cbv zeta.
  assert (Hlt : ~ In 60 x)
    by (apply (avoids_unit [60; 13; percent] _ _ Hx); simpl; auto).
  assert (Hcr : ~ In 13 x)
    by (apply (avoids_unit [60; 13; percent] _ _ Hx); simpl; auto).
  assert (Hpc : ~ In percent x)
    by (apply (avoids_unit [60; 13; percent] _ _ Hx); simpl; auto).
  rewrite keydown_processed by exact Hb.
  cbv zeta. rewrite Ho, He.
  set (s0 := set_stdin_value x _).
  rewrite (timeoutBody_after [] s0 s0 x) by reflexivity.
  cbv zeta. rewrite parse_no_tag by exact Hlt.
  change (truthy Undefined || cwd s0) with false. cbv iota.
  rewrite decodeURI_plain, normalizeNewlines_plain by assumption.
  rewrite persist_value, parse_no_tag by exact Hlt.
  eexists. split; [reflexivity|]. repeat split.
Qed.

Lemma empty_table_never_posts_witness :
  let bare :=
    mkOptions (str "alias") (str "ubuntu") (str "~") (str "$")
      [str "linebreak"; str "echo"; str "help"; str "color"; str "text";
       str "theme"; str "cd"] in
  let t := type (str "hi there") (initialize (constructor blankPage bare)) in
  exists s',
    keydown (fun v => v ++ [newline]) t = (Normal tt, mkTerminal s' [])
    /\ stdin_value s' = str "hi there" ++ [newline]
    /\ requests s' = [].
Proof.
  intros bare t.
  destruct (empty_table_never_posts t (fun v => v ++ [newline])
              (str "hi there" ++ [newline]))
    as (s' & Hkey & _ & Hin & Hreq & _);
    try (vm_compute; reflexivity).
  - vm_compute. intros H. discriminate H.
  - exists s'. split; [exact Hkey|]. rewrite Hin, Hreq. vm_compute.
    split; reflexivity.
Defined.

End Registering.

(** ** The help dialog *)

Section HelpLine.
Import Terminal.





End HelpLine.
